(** * MigraSafe: the migration risk analysis engine ([migrasafe.py])

    A shallow embedding of the rule catalog [RULES], of [analyze_sql] and of
    [risk_label], together with the part of Python's [re] module the catalog
    relies on: pattern compilation, backtracking matching and [finditer].

    Texts are sequences of 8-bit characters, read as the code points
    U+0000..U+00FF; the classes [\s], [\w] and case folding are the ones
    Python applies to these code points in a [str] pattern. *)

From Stdlib Require Import ZArith List String Ascii Bool Arith Lia Sorted.
Import ListNotations.

Set Implicit Arguments.

(** ** Characters *)

Module Chars.

Definition code (c : ascii) : nat := nat_of_ascii c.

Definition between (lo hi n : nat) : bool := (lo <=? n) && (n <=? hi).

(** [str.isspace] and the class [\s]: TAB..CR, FS..US, space, NEL, NBSP. *)
Definition is_space (c : ascii) : bool :=
  let n := code c in
  between 9 13 n || between 28 32 n || (n =? 133) || (n =? 160).

(** The class [\w]: alphanumeric code points and the underscore. *)
Definition is_word (c : ascii) : bool :=
  let n := code c in
  between 48 57 n || between 65 90 n || (n =? 95) || between 97 122 n
  || (n =? 170) || between 178 179 n || (n =? 181) || between 185 186 n
  || between 188 190 n || between 192 214 n || between 216 246 n
  || between 248 255 n.

(** Simple lower-casing, as [re.IGNORECASE] applies it to both sides. *)
Definition lower (c : ascii) : ascii :=
  let n := code c in
  if between 65 90 n || between 192 214 n || between 216 222 n
  then ascii_of_nat (n + 32) else c.

Definition newline : ascii := ascii_of_nat 10.

End Chars.

Import Chars.

(** ** The regular expressions of the catalog *)

Module Re.

(** One-character items. [icase] records [re.IGNORECASE]. *)
Inductive cclass : Type :=
| CLit (icase : bool) (c : ascii)           (* a literal character *)
| CSpace                                    (* \s *)
| CNonSpace                                 (* \S *)
| CWord                                     (* \w *)
| CNoneOf (icase : bool) (cs : list ascii)  (* [^...] *).

(** Repetition is applied to one-character items only, which is all the
    catalog does; groups are either non-capturing and optional, or
    negative lookaheads. *)
Inductive regex : Type :=
| Eps
| Chr (c : cclass)
| Star (c : cclass)        (* c*, greedy *)
| Plus (c : cclass)        (* c+, greedy *)
| Seq (r1 r2 : regex)
| Opt (r : regex)          (* r?, greedy *)
| WordB                    (* \b *)
| NotAhead (r : regex)     (* (?!r) *).

Fixpoint seq_of (items : list regex) : regex :=
  match items with
  | [] => Eps
  | r :: rest => Seq r (seq_of rest)
  end.

Definition lit_match (icase : bool) (c a : ascii) : bool :=
  if icase then Ascii.eqb (lower a) (lower c) else Ascii.eqb a c.

Definition cmatch (c : cclass) (a : ascii) : bool :=
  match c with
  | CLit icase x => lit_match icase x a
  | CSpace => is_space a
  | CNonSpace => negb (is_space a)
  | CWord => is_word a
  | CNoneOf icase cs => negb (existsb (fun x => lit_match icase x a) cs)
  end.

(** *** Compiling a pattern string *)

Definition error_or (A : Type) : Type := option A.

Notation "x <- c ;; k" := (match c with Some x => k | None => None end)
  (at level 61, c at next level, right associativity).
Notation "' p <- c ;; k" := (match c with Some p => k | None => None end)
  (at level 61, p pattern, c at next level, right associativity).

Definition is_special (c : ascii) : bool :=
  existsb (Ascii.eqb c) (list_ascii_of_string ".^$*+?{}[]|()\").

(** The members of a character set, up to the closing bracket. *)
Fixpoint parse_set (s : list ascii) : error_or (list ascii * list ascii) :=
  match s with
  | [] => None
  | c :: s' =>
      if Ascii.eqb c "]" then Some ([], s')
      else if Ascii.eqb c "\" || Ascii.eqb c "-" || Ascii.eqb c "[" then None
      else '(cs, rest) <- parse_set s' ;; Some (c :: cs, rest)
  end.

Definition parse_escape (icase : bool) (c : ascii) : error_or regex :=
  if Ascii.eqb c "s" then Some (Chr CSpace)
  else if Ascii.eqb c "S" then Some (Chr CNonSpace)
  else if Ascii.eqb c "w" then Some (Chr CWord)
  else if Ascii.eqb c "b" then Some WordB
  else if is_special c then Some (Chr (CLit icase c))
  else None.

Definition close_group (wrap : regex -> regex)
    (body : error_or (list regex * list ascii)) : error_or (regex * list ascii) :=
  '(items, rest) <- body ;;
  match rest with
  | c :: rest' => if Ascii.eqb c ")" then Some (wrap (seq_of items), rest') else None
  | [] => None
  end.

Definition parse_atom (icase : bool)
    (parse_body : list ascii -> error_or (list regex * list ascii))
    (s : list ascii) : error_or (regex * list ascii) :=
  match s with
  | [] => None
  | c :: s1 =>
      if Ascii.eqb c "\" then
        match s1 with
        | e :: s2 => r <- parse_escape icase e ;; Some (r, s2)
        | [] => None
        end
      else if Ascii.eqb c "[" then
        match s1 with
        | n :: s2 =>
            if Ascii.eqb n "^" then
              '(cs, rest) <- parse_set s2 ;; Some (Chr (CNoneOf icase cs), rest)
            else None
        | [] => None
        end
      else if Ascii.eqb c "(" then
        match s1 with
        | q :: k :: s2 =>
            if Ascii.eqb q "?" && Ascii.eqb k ":" then
              close_group (fun r => r) (parse_body s2)
            else if Ascii.eqb q "?" && Ascii.eqb k "!" then
              close_group NotAhead (parse_body s2)
            else None
        | _ => None
        end
      else if is_special c then None
      else Some (Chr (CLit icase c), s1)
  end.

(** A postfix [+], [*] or [?] after an atom. *)
Definition parse_quantifier (r : regex) (s : list ascii) : error_or (regex * list ascii) :=
  match s with
  | q :: s' =>
      if Ascii.eqb q "+" then
        match r with Chr c => Some (Plus c, s') | _ => None end
      else if Ascii.eqb q "*" then
        match r with Chr c => Some (Star c, s') | _ => None end
      else if Ascii.eqb q "?" then Some (Opt r, s')
      else Some (r, s)
  | [] => Some (r, s)
  end.

Fixpoint parse_seq (fuel : nat) (icase : bool) (s : list ascii)
  : error_or (list regex * list ascii) :=
  match fuel with
  | O => None
  | S fuel' =>
      match s with
      | [] => Some ([], [])
      | c :: _ =>
          if Ascii.eqb c ")" then Some ([], s)
          else
            '(r, s1) <- parse_atom icase (parse_seq fuel' icase) s ;;
            '(r', s2) <- parse_quantifier r s1 ;;
            '(items, rest) <- parse_seq fuel' icase s2 ;;
            Some (r' :: items, rest)
      end
  end.

(** [re.compile(pattern, flags)]; [None] stands for [re.error]. *)
Definition compile (pattern : string) (icase : bool) : error_or regex :=
  let s := list_ascii_of_string pattern in
  '(items, rest) <- parse_seq (S (List.length s)) icase s ;;
  match rest with
  | [] => Some (seq_of items)
  | _ :: _ => None
  end.

(** *** Backtracking matching

    The cursor is the not yet consumed text [s] together with the character
    just before it ([prev], needed by [\b]). [k] is what remains to be
    matched after the current item; the first alternative that makes [k]
    succeed wins, as in the engine of [re]. *)

Definition word_before (prev : option ascii) : bool :=
  match prev with Some a => is_word a | None => false end.

Definition word_after (s : list ascii) : bool :=
  match s with a :: _ => is_word a | [] => false end.

Definition at_boundary (prev : option ascii) (s : list ascii) : bool :=
  xorb (word_before prev) (word_after s).

Definition cont : Type := option ascii -> list ascii -> option (list ascii).

Definition accept : cont := fun _ s => Some s.

Fixpoint run (c : cclass) (prev : option ascii) (s : list ascii) (k : cont)
  : option (list ascii) :=
  match s with
  | a :: s' =>
      if cmatch c a then
        match run c (Some a) s' k with
        | Some e => Some e
        | None => k prev s
        end
      else k prev s
  | [] => k prev s
  end.

Fixpoint mtch (r : regex) (prev : option ascii) (s : list ascii) (k : cont)
  : option (list ascii) :=
  match r with
  | Eps => k prev s
  | Chr c =>
      match s with
      | a :: s' => if cmatch c a then k (Some a) s' else None
      | [] => None
      end
  | Star c => run c prev s k
  | Plus c =>
      match s with
      | a :: s' => if cmatch c a then run c (Some a) s' k else None
      | [] => None
      end
  | Seq r1 r2 => mtch r1 prev s (fun p' s' => mtch r2 p' s' k)
  | Opt r' =>
      match mtch r' prev s k with
      | Some e => Some e
      | None => k prev s
      end
  | WordB => if at_boundary prev s then k prev s else None
  | NotAhead r' =>
      match mtch r' prev s accept with
      | Some _ => None
      | None => k prev s
      end
  end.

(** A match attempt at the cursor: the text left after the match. *)
Definition match_here (r : regex) (prev : option ascii) (s : list ascii)
  : option (list ascii) :=
  mtch r prev s accept.

(** The spans [(start, end)] of the successive non-overlapping matches,
    scanning from left to right. [skip] counts the characters still
    covered by the previous match. *)
Fixpoint scan (r : regex) (pos skip : nat) (prev : option ascii) (s : list ascii)
  : list (nat * nat) :=
  match skip with
  | S skip' =>
      match s with
      | a :: s' => scan r (S pos) skip' (Some a) s'
      | [] => []
      end
  | O =>
      match match_here r prev s with
      | Some rest =>
          let len := List.length s - List.length rest in
          (pos, pos + len) ::
            match s with
            | a :: s' => scan r (S pos) (len - 1) (Some a) s'
            | [] => []
            end
      | None =>
          match s with
          | a :: s' => scan r (S pos) 0 (Some a) s'
          | [] => []
          end
      end
  end.

Record flags : Type := { IGNORECASE : bool; MULTILINE : bool }.

(** [re.finditer(pattern, text, flags)], as the list of match spans.
    [MULTILINE] only changes [^] and [$], which [compile] does not accept. *)
Definition finditer (pattern : string) (text : list ascii) (f : flags)
  : error_or (list (nat * nat)) :=
  r <- compile pattern (IGNORECASE f) ;;
  Some (scan r 0 0 None text).

End Re.

Import Re.

Open Scope string_scope.

(** ** The engine *)

Inductive Severity : Type := CRITICAL | HIGH | MEDIUM | LOW.

Definition Severity_value (s : Severity) : Z :=
  match s with CRITICAL => 4 | HIGH => 3 | MEDIUM => 2 | LOW => 1 end%Z.

Record Finding : Type := mkFinding {
  rule_id : string;
  severity : Severity;
  score : Z;
  line : Z;
  message : string;
  sql_snippet : string;
  remediation : string
}.

Record AnalysisResult : Type := mkAnalysisResult {
  file_path : string;
  findings : list Finding
}.

Definition sum (l : list Z) : Z := fold_left Z.add l 0%Z.

Definition total_score (r : AnalysisResult) : Z :=
  sum (map score (findings r)).

(** A catalog entry: id, severity, score, pattern, message, remediation. *)
Definition Rule : Type := (string * Severity * Z * string * string * string)%type.

Definition RULES : list Rule := [
  ("MS001", CRITICAL, 40%Z,
   "ALTER\s+TABLE\s+\S+\s+ADD\s+(?:COLUMN\s+)?\w+\s+\w+[^;]*\bNOT\s+NULL\b(?![^;]*\bDEFAULT\b)",
   "ADD NOT NULL column without DEFAULT — fails on non-empty tables",
   "Add DEFAULT value or split: add nullable -> backfill -> SET NOT NULL");
  ("MS002", HIGH, 30%Z,
   "ALTER\s+TABLE\s+\S+\s+DROP\s+COLUMN\s+\w+",
   "DROP COLUMN is backward-incompatible; running code may still reference it",
   "Expand-contract: stop reading -> deploy -> drop in later migration");
  ("MS003", HIGH, 25%Z,
   "CREATE\s+(?:UNIQUE\s+)?INDEX\s+(?!CONCURRENTLY)",
   "CREATE INDEX without CONCURRENTLY locks the table for writes",
   "Use CREATE INDEX CONCURRENTLY to avoid blocking writes");
  ("MS004", HIGH, 30%Z,
   "ALTER\s+TABLE\s+\S+\s+RENAME\s+COLUMN\s+\w+",
   "RENAME COLUMN is backward-incompatible; old code uses old name",
   "Add new column -> copy data -> update code -> drop old column");
  ("MS005", CRITICAL, 50%Z,
   "DROP\s+TABLE\s+(?:IF\s+EXISTS\s+)?\w+",
   "DROP TABLE causes irreversible data loss",
   "Ensure all services stopped using table; consider renaming first");
  ("MS006", HIGH, 35%Z,
   "ALTER\s+TABLE\s+\S+\s+ALTER\s+COLUMN\s+\w+\s+(?:SET\s+DATA\s+)?TYPE",
   "ALTER COLUMN TYPE may cause full table rewrite and lock",
   "Use expand-contract or ensure cast is safe (e.g. varchar->text)");
  ("MS007", MEDIUM, 20%Z,
   "ALTER\s+TABLE\s+\S+\s+ADD\s+(?:CONSTRAINT\s+\w+\s+)?UNIQUE",
   "ADD UNIQUE constraint requires full table scan and lock",
   "Create UNIQUE INDEX CONCURRENTLY first, then ADD CONSTRAINT USING INDEX");
  ("MS101", MEDIUM, 20%Z,
   "RunPython\s*\(\s*\w+\s*\)",
   "RunPython without reverse function makes migration irreversible",
   "Add reverse: RunPython(forward, reverse) or RunPython(forward, RunPython.noop)")
].

(** [s.startswith(p)] *)
Definition startswith (s p : string) : bool := String.prefix p s.

(** [s.count(c)] for a one-character [c]. *)
Definition count (s : list ascii) (c : ascii) : nat := count_occ ascii_dec s c.

Fixpoint lstrip (s : list ascii) : list ascii :=
  match s with
  | a :: s' => if is_space a then lstrip s' else s
  | [] => []
  end.

Definition strip (s : list ascii) : list ascii := rev (lstrip (rev (lstrip s))).

(** [s[i:j]] for [0 <= i <= j]. *)
Definition slice (s : list ascii) (i j : nat) : list ascii := firstn (j - i) (skipn i s).

Definition re_flags : flags := {| IGNORECASE := true; MULTILINE := true |}.

(** The body of the inner loop: the finding of one match. *)
Definition finding_of (r : Rule) (sql : list ascii) (m : nat * nat) : Finding :=
  let '(rule_id, severity, score, _, message, remediation) := r in
  let line := (Z.of_nat (count (slice sql 0 (fst m)) newline) + 1)%Z in
  let snippet := firstn 80 (strip (slice sql (fst m) (snd m))) in
  mkFinding rule_id severity score line message (string_of_list_ascii snippet) remediation.

Definition rule_pattern (r : Rule) : string :=
  let '(_, _, _, pattern, _, _) := r in pattern.

Definition rule_name (r : Rule) : string :=
  let '(rule_id, _, _, _, _, _) := r in rule_id.

(** The outer loop: [acc] is [result.findings] so far. *)
Fixpoint analyze_rules (active : list Rule) (sql : list ascii) (acc : list Finding)
  : error_or (list Finding) :=
  match active with
  | [] => Some acc
  | r :: rest =>
      matches <- finditer (rule_pattern r) sql re_flags ;;
      analyze_rules rest sql (acc ++ map (finding_of r sql) matches)%list
  end.

Definition active_rules (include_django : bool) : list Rule :=
  filter (fun r => include_django || negb (startswith (rule_name r) "MS1")) RULES.

Definition analyze_sql (sql : string) (file_path : string) (include_django : bool)
  : error_or AnalysisResult :=
  fs <- analyze_rules (active_rules include_django) (list_ascii_of_string sql) [] ;;
  Some (mkAnalysisResult file_path fs).

Definition risk_label (score : Z) : string :=
  if (score >=? 50)%Z then "CRITICAL"
  else if (score >=? 30)%Z then "HIGH"
  else if (score >=? 15)%Z then "MEDIUM"
  else "LOW".

Definition nl : string := String newline EmptyString.

(** ** Reading a file ([analyze_file]) and the command line ([cli.py]) *)

Module Cli.

(** What the program can raise. *)
Inductive failure : Type :=
| ReadError (path : string)     (* [Path.read_text] failed *)
| PatternError                  (* [re.error] *)
| KeyError (key : string)       (* a key missing from a dictionary *).

Definition result (A : Type) : Type := (failure + A)%type.

Notation "x <~ c ;; k" := (match c with inr x => k | inl e => inl e end)
  (at level 61, c at next level, right associativity).

(** The files as [Path(path).read_text] sees them: the decoded text of a
    path, or nothing when reading fails. *)
Definition disk : Type := string -> option string.

Definition analyze_file (files : disk) (path : string) (include_django : bool)
  : result AnalysisResult :=
  match files path with
  | None => inl (ReadError path)
  | Some content =>
      match analyze_sql content path include_django with
      | Some r => inr r
      | None => inl PatternError
      end
  end.

Definition Severity_name (s : Severity) : string :=
  match s with
  | CRITICAL => "CRITICAL" | HIGH => "HIGH" | MEDIUM => "MEDIUM" | LOW => "LOW"
  end.

Definition COLORS : list (string * string) :=
  [("CRITICAL", "red"); ("HIGH", "yellow"); ("MEDIUM", "blue"); ("LOW", "green")].

(** [d[key]] *)
Definition getitem (d : list (string * string)) (key : string) : result string :=
  match find (fun kv => String.eqb (fst kv) key) d with
  | Some kv => inr (snd kv)
  | None => inl (KeyError key)
  end.

Inductive format : Type := table | json.

(** One entry of the JSON list. *)
Record json_finding : Type := mkJson {
  j_rule : string;
  j_severity : string;
  j_line : Z;
  j_message : string;
  j_score : Z;
  j_remediation : string
}.

(** One row of the table: rule, colour and severity, line, issue, points. *)
Record table_row : Type := mkRow {
  row_rule : string;
  row_color : string;
  row_severity : string;
  row_line : Z;
  row_issue : string;
  row_points : Z
}.

(** What is written to the terminal, item by item. *)
Inductive printed : Type :=
| Usage
| JsonReport (data : list json_finding) (total_score : Z) (passed : bool)
| TableReport (rows : list table_row)
| RemediationsTitle
| Remediation (rule : string) (advice : string)
| RiskScore (color : string) (total : Z) (label : string) (threshold : Z)
| Blocked (total threshold : Z)
| Passed (total threshold : Z).

Record run : Type := mkRun { output : list printed; exit_code : Z }.

(** The loop over the paths; the state is [(all_findings, total)]. *)
Fixpoint analyze_paths (files : disk) (paths : list string) (include_django : bool)
    (state : list Finding * Z) : result (list Finding * Z) :=
  match paths with
  | [] => inr state
  | p :: rest =>
      r <~ analyze_file files p include_django ;;
      analyze_paths files rest include_django
        ((fst state ++ findings r)%list, (snd state + total_score r)%Z)
  end.

Definition json_of (f : Finding) : json_finding :=
  mkJson (rule_id f) (Severity_name (severity f)) (line f) (message f) (score f)
         (remediation f).

Fixpoint table_rows (fs : list Finding) : result (list table_row) :=
  match fs with
  | [] => inr []
  | f :: rest =>
      c <~ getitem COLORS (Severity_name (severity f)) ;;
      rows <~ table_rows rest ;;
      inr (mkRow (rule_id f) c (Severity_name (severity f)) (line f) (message f)
                 (score f) :: rows)
  end.

Definition main (files : disk) (paths : list string) (threshold : Z) (fmt : format)
    (no_django : bool) : result run :=
  match paths with
  | [] => inr (mkRun [Usage] 0)
  | _ :: _ =>
      state <~ analyze_paths files paths (negb no_django) ([], 0%Z) ;;
      let all_findings := fst state in
      let total := snd state in
      match fmt with
      | json =>
          inr (mkRun [JsonReport (map json_of all_findings) total (total <? threshold)%Z]
                     (if (total <? threshold)%Z then 0 else 1))
      | table =>
          shown <~ match all_findings with
                   | [] => inr []
                   | _ :: _ =>
                       rows <~ table_rows all_findings ;;
                       inr ([TableReport rows; RemediationsTitle] ++
                            map (fun f => Remediation (rule_id f) (remediation f))
                                all_findings)%list
                   end ;;
          let label := risk_label total in
          c <~ getitem COLORS label ;;
          let score_line := RiskScore c total label threshold in
          if (total >=? threshold)%Z
          then inr (mkRun (shown ++ [score_line; Blocked total threshold])%list 1)
          else inr (mkRun (shown ++ [score_line; Passed total threshold])%list 0)
      end
  end.

(** The default of [--threshold]. *)
Definition default_threshold : Z := 30.

End Cli.

(** * Vocabulary of the statements *)

Open Scope list_scope.

(** ** What a pattern matches

    [matches r p s p' s']: read from the cursor [(p, s)], the pattern [r]
    can stop at the cursor [(p', s')]. This says which matches exist, not
    which one the engine prefers. *)

Module Sem.

Inductive runs (c : cclass) : option ascii -> list ascii -> option ascii -> list ascii -> Prop :=
| runs_stop p s : runs c p s p s
| runs_step p a s p' s' :
    cmatch c a = true -> runs c (Some a) s p' s' -> runs c p (a :: s) p' s'.

Fixpoint matches (r : regex) (p : option ascii) (s : list ascii)
    (p' : option ascii) (s' : list ascii) : Prop :=
  match r with
  | Eps => p' = p /\ s' = s
  | Chr c => exists a, s = a :: s' /\ cmatch c a = true /\ p' = Some a
  | Star c => runs c p s p' s'
  | Plus c => exists a s1, s = a :: s1 /\ cmatch c a = true /\ runs c (Some a) s1 p' s'
  | Seq r1 r2 => exists pm sm, matches r1 p s pm sm /\ matches r2 pm sm p' s'
  | Opt r1 => matches r1 p s p' s' \/ (p' = p /\ s' = s)
  | WordB => at_boundary p s = true /\ p' = p /\ s' = s
  | NotAhead r1 => (~ exists pm sm, matches r1 p s pm sm) /\ p' = p /\ s' = s
  end.

(** The character before the cursor once [w] has been read. *)
Fixpoint after (p : option ascii) (w : list ascii) : option ascii :=
  match w with
  | [] => p
  | a :: w' => after (Some a) w'
  end.

End Sem.

Import Sem.

(** [reads r p w rest]: after the character [p] and in front of [rest],
    the pattern [r] matches exactly the characters [w]. *)
Definition reads (r : regex) (p : option ascii) (w rest : list ascii) : Prop :=
  matches r p (w ++ rest) (after p w) rest.

(** The items of a word written out in a pattern. *)
Definition lits (icase : bool) (word : string) : list regex :=
  map (fun c => Chr (CLit icase c)) (list_ascii_of_string word).

(** [w] is [word] up to the case of its letters. *)
Definition ignoring_case (word : string) (w : list ascii) : Prop :=
  Forall2 (fun c a => lower a = lower c) (list_ascii_of_string word) w.

Definition all_of (f : ascii -> bool) (w : list ascii) : Prop :=
  Forall (fun a => f a = true) w.


Definition blanks (w : list ascii) : Prop := w <> [] /\ all_of is_space w.


Definition all_ascii : list ascii := map ascii_of_nat (seq 0 256).

(** The match spans and the findings of one catalog entry on a text. *)
Definition rule_spans (r : Rule) (sql : list ascii) : list (nat * nat) :=
  match finditer (rule_pattern r) sql re_flags with
  | Some ms => ms
  | None => []
  end.

Definition rule_findings (sql : list ascii) (r : Rule) : list Finding :=
  map (finding_of r sql) (rule_spans r sql).

Definition rule_score (r : Rule) : Z :=
  let '(_, _, score, _, _, _) := r in score.

(** The catalog entry of a rule id, and its compiled pattern. *)
Definition rule_named (name : string) : option Rule :=
  find (fun r => String.eqb (rule_name r) name) RULES.

Definition pattern_of (name : string) : string :=
  match rule_named name with
  | Some r => rule_pattern r
  | None => ""
  end.

Definition compiled (name : string) : error_or regex :=
  compile (pattern_of name) true.

(** [any(f.rule_id == name for f in fs)] *)
Definition has_rule (name : string) (fs : list Finding) : bool :=
  existsb (fun f => String.eqb (rule_id f) name) fs.

(** [f.rule_id.startswith("MS1")]: the finding of a framework rule. *)
Definition is_framework (f : Finding) : bool := startswith (rule_id f) "MS1".

(** [Severity[label]]: the severity a label names. *)
Definition Severity_of_label (label : string) : option Severity :=
  if String.eqb label "CRITICAL" then Some CRITICAL
  else if String.eqb label "HIGH" then Some HIGH
  else if String.eqb label "MEDIUM" then Some MEDIUM
  else if String.eqb label "LOW" then Some LOW
  else None.

(** The place of a label in the order LOW < MEDIUM < HIGH < CRITICAL. *)
Definition label_rank (label : string) : Z :=
  match Severity_of_label label with
  | Some s => Severity_value s
  | None => 0%Z
  end.

(** The number of offsets [j < start] at which [text] holds a newline. *)
Definition newlines_before (text : list ascii) (start : nat) : nat :=
  List.length
    (filter (fun j => Ascii.eqb (nth j text zero) newline) (seq 0 start)).



(** The compiled patterns of MS101, MS001 and MS003, item by item. *)
Definition ms101 : regex :=
  seq_of (lits true "RunPython" ++
          [Star CSpace; Chr (CLit true "("); Star CSpace; Plus CWord; Star CSpace;
           Chr (CLit true ")")]).

Definition look : regex :=
  seq_of ([Star (CNoneOf true [";"%char]); WordB] ++ lits true "DEFAULT" ++ [WordB]).

Definition ms001_head : list regex :=
  (lits true "ALTER" ++ [Plus CSpace] ++ lits true "TABLE" ++
   [Plus CSpace; Plus CNonSpace; Plus CSpace] ++ lits true "ADD" ++
   [Plus CSpace; Opt (seq_of (lits true "COLUMN" ++ [Plus CSpace]));
    Plus CWord; Plus CSpace; Plus CWord; Star (CNoneOf true [";"%char]); WordB] ++
   lits true "NOT" ++ [Plus CSpace] ++ lits true "NULL" ++ [WordB])%list.

Definition ms001 : regex := seq_of (ms001_head ++ [NotAhead look]).


Definition ms003 : regex :=
  seq_of (lits true "CREATE" ++
          [Plus CSpace; Opt (seq_of (lits true "UNIQUE" ++ [Plus CSpace]))] ++
          lits true "INDEX" ++
          [Plus CSpace; NotAhead (seq_of (lits true "CONCURRENTLY"))]).


(** The place of a rule id in the catalog. *)
Fixpoint index_of (name : string) (rules : list Rule) : nat :=
  match rules with
  | [] => 0
  | r :: rest => if String.eqb (rule_name r) name then 0 else S (index_of name rest)
  end.

Definition rule_index (name : string) : nat := index_of name RULES.

(** [f] may stand before [g] in a report: its rule comes earlier in the
    catalog, or it is the same rule and its line is not larger. *)
Definition report_order (f g : Finding) : Prop :=
  rule_index (rule_id f) < rule_index (rule_id g) \/
  (rule_id f = rule_id g /\ (line f <= line g)%Z).

(** One span lies before another, without overlap. *)
Definition span_before (a b : nat * nat) : Prop :=
  fst a < fst b /\ snd a <= fst b.

(** The findings of one file, of a batch of files in the order of the
    paths, and the total of the batch. *)
Definition file_findings (files : Cli.disk) (include_django : bool) (path : string)
  : list Finding :=
  match files path with
  | Some content =>
      match analyze_sql content path include_django with
      | Some r => findings r
      | None => []
      end
  | None => []
  end.

Definition batch_findings (files : Cli.disk) (paths : list string)
    (include_django : bool) : list Finding :=
  flat_map (file_findings files include_django) paths.

Definition batch_total (files : Cli.disk) (paths : list string)
    (include_django : bool) : Z :=
  sum (map score (batch_findings files paths include_django)).

(** Every path of the list can be read. *)
Definition readable (files : Cli.disk) (paths : list string) : Prop :=
  forall p, In p paths -> files p <> None.

(** A small disk for the examples: one migration that drops a table. *)
Definition one_file_disk : Cli.disk :=
  fun path => if String.eqb path "0002_drop.sql" then Some "DROP TABLE old_users;"
              else None.



(** Every literal and set of the pattern ignores case. *)
Definition folded_class (c : cclass) : bool :=
  match c with
  | CLit icase _ => icase
  | CNoneOf icase _ => icase
  | CSpace | CNonSpace | CWord => true
  end.

Fixpoint folded (r : regex) : bool :=
  match r with
  | Eps | WordB => true
  | Chr c | Star c | Plus c => folded_class c
  | Seq r1 r2 => folded r1 && folded r2
  | Opt r1 | NotAhead r1 => folded r1
  end.


(** The patterns of MS002, MS004, MS005, MS006 and MS007, item by item,
    and the texts they stand for. *)
Definition alter_table_items : list regex :=
  lits true "ALTER" ++ [Plus CSpace] ++ lits true "TABLE" ++
  [Plus CSpace; Plus CNonSpace; Plus CSpace].


Definition column_items (verb : string) : list regex :=
  lits true verb ++ [Plus CSpace] ++ lits true "COLUMN" ++ [Plus CSpace].

Definition ms002 : regex :=
  seq_of ((alter_table_items ++ column_items "DROP") ++ [Plus CWord]).

Definition ms004 : regex :=
  seq_of ((alter_table_items ++ column_items "RENAME") ++ [Plus CWord]).


Definition drop_table_items : list regex :=
  lits true "DROP" ++ [Plus CSpace] ++ lits true "TABLE" ++
  [Plus CSpace;
   Opt (seq_of (lits true "IF" ++ [Plus CSpace] ++ lits true "EXISTS" ++ [Plus CSpace]))].

Definition ms005 : regex := seq_of (drop_table_items ++ [Plus CWord]).


Definition ms006 : regex :=
  seq_of (alter_table_items ++ lits true "ALTER" ++ [Plus CSpace] ++
          lits true "COLUMN" ++
          [Plus CSpace; Plus CWord; Plus CSpace;
           Opt (seq_of (lits true "SET" ++ [Plus CSpace] ++ lits true "DATA" ++
                        [Plus CSpace]))] ++
          lits true "TYPE").


Definition ms007 : regex :=
  seq_of (alter_table_items ++ lits true "ADD" ++
          [Plus CSpace;
           Opt (seq_of (lits true "CONSTRAINT" ++ [Plus CSpace; Plus CWord; Plus CSpace]))] ++
          lits true "UNIQUE").


Definition rule_severity (r : Rule) : Severity :=
  let '(_, severity, _, _, _, _) := r in severity.

(** The colour of a severity, and the table row of a finding. *)
Definition severity_colour (s : Severity) : string :=
  match s with
  | CRITICAL => "red" | HIGH => "yellow" | MEDIUM => "blue" | LOW => "green"
  end.

Definition table_row_of (f : Finding) : Cli.table_row :=
  Cli.mkRow (rule_id f) (severity_colour (severity f)) (Cli.Severity_name (severity f))
            (line f) (message f) (score f).




Open Scope string_scope.

(** * Proofs *)

Section MatcherCorrect.

Lemma run_sound c : forall s p (k : cont) e,
  run c p s k = Some e -> exists p' s', runs c p s p' s' /\ k p' s' = Some e.
Proof.
  induction s as [|a s IH]; intros p k e H; simpl in H.
  - exists p, []. split; [constructor | exact H].
  - destruct (cmatch c a) eqn:Hc.
    + destruct (run c (Some a) s k) as [e'|] eqn:Hr.
      * injection H as <-. destruct (IH _ _ _ Hr) as (p' & s' & Hruns & Hk).
        exists p', s'. split; [now constructor | exact Hk].
      * exists p, (a :: s). split; [constructor | exact H].
    + exists p, (a :: s). split; [constructor | exact H].
Qed.

Lemma run_complete c : forall p s p' s', runs c p s p' s' ->
  forall k : cont, k p' s' <> None -> run c p s k <> None.
Proof.
  induction 1 as [p s | p a s p' s' Hc Hruns IH]; intros k Hk.
  - destruct s as [|a s]; simpl; [exact Hk|].
    destruct (cmatch c a); [|exact Hk].
    destruct (run c (Some a) s k); [discriminate | exact Hk].
  - simpl. rewrite Hc. specialize (IH k Hk).
    destruct (run c (Some a) s k); [discriminate | contradiction].
Qed.

Lemma mtch_correct r :
  (forall p s (k : cont) e, mtch r p s k = Some e ->
     exists p' s', matches r p s p' s' /\ k p' s' = Some e) /\
  (forall p s p' s', matches r p s p' s' ->
     forall k : cont, k p' s' <> None -> mtch r p s k <> None).
Proof.
  induction r as [ | c | c | c | r1 [S1 C1] r2 [S2 C2] | r1 [S1 C1] | | r1 [S1 C1]];
    split; simpl.
  - intros p s k e H. now exists p, s.
  - intros p s p' s' [-> ->] k Hk. exact Hk.
  - intros p [|a s] k e H; [discriminate|].
    destruct (cmatch c a) eqn:Hc; [|discriminate].
    exists (Some a), s. split; [now exists a | exact H].
  - intros p s p' s' (a & -> & Hc & ->) k Hk. now rewrite Hc.
  - intros p s k e H. now apply run_sound.
  - intros p s p' s' H k Hk. now apply run_complete with (p' := p') (s' := s').
  - intros p [|a s] k e H; [discriminate|].
    destruct (cmatch c a) eqn:Hc; [|discriminate].
    destruct (run_sound _ _ _ _ H) as (p' & s' & Hruns & Hk).
    exists p', s'. split; [now exists a, s | exact Hk].
  - intros p s p' s' (a & s1 & -> & Hc & Hruns) k Hk. rewrite Hc.
    now apply run_complete with (p' := p') (s' := s').
  - intros p s k e H.
    destruct (S1 _ _ _ _ H) as (pm & sm & H1 & H2).
    destruct (S2 _ _ _ _ H2) as (p' & s' & H3 & H4).
    exists p', s'. split; [now exists pm, sm | exact H4].
  - intros p s p' s' (pm & sm & H1 & H2) k Hk.
    apply (C1 _ _ _ _ H1). now apply (C2 _ _ _ _ H2).
  - intros p s k e H.
    destruct (mtch r1 p s k) as [e'|] eqn:Hm.
    + injection H as <-. destruct (S1 _ _ _ _ Hm) as (p' & s' & H1 & H2).
      exists p', s'. split; [now left | exact H2].
    + exists p, s. split; [now right | exact H].
  - intros p s p' s' [H | [-> ->]] k Hk.
    + specialize (C1 _ _ _ _ H k Hk). now destruct (mtch r1 p s k).
    + now destruct (mtch r1 p s k).
  - intros p s k e H. destruct (at_boundary p s) eqn:Hb; [|discriminate].
    now exists p, s.
  - intros p s p' s' (Hb & -> & ->) k Hk. now rewrite Hb.
  - intros p s k e H.
    destruct (mtch r1 p s accept) as [e'|] eqn:Hm; [discriminate|].
    exists p, s. split; [|exact H]. split; [|now split].
    intros (pm & sm & Hx). now apply (C1 _ _ _ _ Hx accept).
  - intros p s p' s' (Hno & -> & ->) k Hk.
    destruct (mtch r1 p s accept) as [e'|] eqn:Hm; [|exact Hk].
    destruct (S1 _ _ _ _ Hm) as (pm & sm & Hx & _). exfalso. apply Hno. now exists pm, sm.
Qed.

(** The engine finds a match at a cursor exactly when one exists. *)
Lemma match_here_iff r p s :
  match_here r p s <> None <-> exists p' s', matches r p s p' s'.
Proof.
  unfold match_here. split.
  - destruct (mtch r p s accept) as [e|] eqn:H; [intros _ | now intros []].
    destruct (proj1 (mtch_correct r) _ _ _ _ H) as (p' & s' & Hm & _). now exists p', s'.
  - intros (p' & s' & Hm). now apply (proj2 (mtch_correct r) _ _ _ _ Hm).
Qed.

Lemma match_here_stops r p s e :
  match_here r p s = Some e -> exists p', matches r p s p' e.
Proof.
  intros H. destruct (proj1 (mtch_correct r) _ _ _ _ H) as (p' & s' & Hm & Hk).
  injection Hk as ->. now exists p'.
Qed.

End MatcherCorrect.

(** ** Matches consume a prefix of the text *)

Section Words.

Lemma after_app p w1 w2 : after p (w1 ++ w2) = after (after p w1) w2.
Proof. revert p. induction w1 as [|a w1 IH]; intros p; simpl; [reflexivity | apply IH]. Qed.

Lemma runs_split c p s p' s' :
  runs c p s p' s' ->
  exists w, s = (w ++ s')%list /\ p' = after p w /\ Forall (fun a => cmatch c a = true) w.
Proof.
  induction 1 as [p s | p a s p' s' Hc _ (w & -> & -> & Hw)].
  - exists []. repeat split. constructor.
  - exists (a :: w). repeat split. now constructor.
Qed.

Lemma runs_join c w : Forall (fun a => cmatch c a = true) w ->
  forall p s', runs c p (w ++ s') (after p w) s'.
Proof.
  induction 1 as [|a w Ha _ IH]; intros p s'; simpl.
  - constructor.
  - constructor; [exact Ha | apply IH].
Qed.

Lemma matches_split r : forall p s p' s',
  matches r p s p' s' -> exists w, s = (w ++ s')%list /\ p' = after p w.
Proof.
  induction r as [ | c | c | c | r1 IH1 r2 IH2 | r1 IH1 | | r1 IH1]; simpl; intros p s p' s' H.
  - destruct H as [-> ->]. now exists [].
  - destruct H as (a & -> & _ & ->). now exists [a].
  - destruct (runs_split H) as (w & -> & -> & _). now exists w.
  - destruct H as (a & s1 & -> & _ & H). destruct (runs_split H) as (w & -> & -> & _).
    now exists (a :: w).
  - destruct H as (pm & sm & H1 & H2).
    destruct (IH1 _ _ _ _ H1) as (w1 & -> & ->). destruct (IH2 _ _ _ _ H2) as (w2 & -> & ->).
    exists (w1 ++ w2)%list. now rewrite after_app, app_assoc.
  - destruct H as [H | [-> ->]]; [now apply IH1 | now exists []].
  - destruct H as (_ & -> & ->). now exists [].
  - destruct H as (_ & -> & ->). now exists [].
Qed.

Lemma match_here_suffix r p s e :
  match_here r p s = Some e -> exists w, s = (w ++ e)%list.
Proof.
  intros H. destruct (match_here_stops _ _ _ H) as (p' & Hm).
  destruct (matches_split _ _ _ _ _ Hm) as (w & -> & _). now exists w.
Qed.

End Words.

(** ** The spans reported by [scan] *)

Section Scan.

Variable r : regex.

Lemma scan_sound : forall s pos skip p i e,
  In (i, e) (scan r pos skip p s) ->
  exists pre w rest,
    s = (pre ++ w ++ rest)%list /\ i = pos + List.length pre /\ e = i + List.length w /\
    match_here r (after p pre) (w ++ rest) = Some rest.
Proof.
  induction s as [|a s IH]; intros pos skip p i e H.
  - destruct skip as [|skip]; simpl in H; [|contradiction].
    destruct (match_here r p []) as [rest|] eqn:Hm; [|contradiction].
    destruct H as [H|[]]. injection H as <- <-.
    destruct (match_here_suffix _ _ _ Hm) as (w & Hw).
    symmetry in Hw. apply app_eq_nil in Hw. destruct Hw as [-> ->].
    exists [], [], []. simpl. repeat split; try lia. exact Hm.
  - assert (Htail : forall skip', In (i, e) (scan r (S pos) skip' (Some a) s) ->
      exists pre w rest, a :: s = (pre ++ w ++ rest)%list /\ i = pos + List.length pre /\
        e = i + List.length w /\ match_here r (after p pre) (w ++ rest) = Some rest).
    { intros skip' H'. destruct (IH _ _ _ _ _ H') as (pre & w & rest & -> & -> & -> & Hm).
      exists (a :: pre), w, rest. simpl. repeat split; [lia | exact Hm]. }
    destruct skip as [|skip]; simpl in H; [|now apply (Htail skip)].
    destruct (match_here r p (a :: s)) as [rest|] eqn:Hm; [|now apply (Htail 0)].
    destruct H as [H|H]; [|now apply (Htail _ H)].
    injection H as <- <-.
    destruct (match_here_suffix _ _ _ Hm) as (w & Hw).
    assert (Hlen : List.length (a :: s) = List.length w + List.length rest)
      by (rewrite Hw; apply length_app).
    exists [], w, rest. cbn [app List.length after]. rewrite <- Hw.
    repeat split; [lia | | exact Hm].
    simpl in Hlen. destruct (List.length rest); lia.
Qed.

Lemma scan_complete : forall pre s pos p,
  match_here r (after p pre) s <> None -> scan r pos 0 p (pre ++ s) <> [].
Proof.
  induction pre as [|a pre IH]; intros s pos p H; simpl in *.
  - destruct s as [|b s]; simpl; destruct (match_here r p _); congruence.
  - destruct (match_here r p (a :: pre ++ s)); [discriminate|]. now apply IH.
Qed.

(** Some span is reported exactly when the pattern matches somewhere. *)
Lemma scan_nonempty_iff text :
  scan r 0 0 None text <> [] <->
  exists pre s, text = (pre ++ s)%list /\ match_here r (after None pre) s <> None.
Proof.
  split.
  - destruct (scan r 0 0 None text) as [|[i e] l] eqn:Hs; [now intros []|]. intros _.
    assert (Hin : In (i, e) (scan r 0 0 None text)) by (rewrite Hs; now left).
    destruct (scan_sound _ _ _ _ _ _ Hin) as (pre & w & rest & -> & _ & _ & Hm).
    exists pre, (w ++ rest)%list. split; [reflexivity | congruence].
  - intros (pre & s & -> & H). now apply scan_complete.
Qed.

End Scan.

(** Every pattern of the catalog starts with a letter, so that a match is
    never empty and [scan] always resumes behind the match. *)
Lemma letter_first_consumes c r2 p s e :
  match_here (Seq (Chr c) r2) p s = Some e -> List.length e < List.length s.
Proof.
  intros H. destruct (match_here_stops _ _ _ H) as (p' & pm & sm & H1 & H2).
  destruct H1 as (a & -> & _ & _).
  destruct (matches_split _ _ _ _ _ H2) as (w & -> & _).
  simpl. rewrite length_app. lia.
Qed.

Lemma catalog_matches_consume r re p s e :
  In r RULES -> compile (rule_pattern r) true = Some re ->
  match_here re p s = Some e -> List.length e < List.length s.
Proof.
  intros Hr Hc. unfold RULES in Hr.
  assert (Hshape : exists c r2, re = Seq (Chr c) r2).
  { repeat (destruct Hr as [<- | Hr];
            [vm_compute in Hc; injection Hc as <-; now do 2 eexists|]).
    destruct Hr. }
  destruct Hshape as (c & r2 & ->). apply letter_first_consumes.
Qed.

(** ** The analysis as a whole *)

Section Analysis.

Lemma catalog_compiles r : In r RULES -> compile (rule_pattern r) true <> None.
Proof.
  intros H. unfold RULES in H.
  repeat (destruct H as [<- | H]; [now vm_compute|]). destruct H.
Qed.

Lemma finditer_catalog r sql :
  In r RULES -> finditer (rule_pattern r) sql re_flags = Some (rule_spans r sql).
Proof.
  intros H. apply catalog_compiles in H. unfold rule_spans, finditer. simpl.
  now destruct (compile (rule_pattern r) true).
Qed.

Lemma analyze_rules_spec sql : forall active acc,
  incl active RULES ->
  analyze_rules active sql acc = Some (acc ++ flat_map (rule_findings sql) active)%list.
Proof.
  induction active as [|r active IH]; intros acc Hin; simpl.
  - now rewrite app_nil_r.
  - rewrite finditer_catalog by (apply Hin; now left).
    rewrite IH by (intros x Hx; apply Hin; now right).
    now rewrite <- app_assoc.
Qed.

Lemma active_rules_incl d : incl (active_rules d) RULES.
Proof. intros r H. unfold active_rules in H. now apply filter_In in H. Qed.

Lemma analyze_sql_spec sql fp d :
  analyze_sql sql fp d =
  Some (mkAnalysisResult fp
          (flat_map (rule_findings (list_ascii_of_string sql)) (active_rules d))).
Proof.
  unfold analyze_sql. now rewrite analyze_rules_spec by apply active_rules_incl.
Qed.

Lemma finding_of_rule_id r sql m : rule_id (finding_of r sql m) = rule_name r.
Proof. now destruct r as [[[[[? ?] ?] ?] ?] ?]. Qed.

Lemma finding_of_line r sql m :
  line (finding_of r sql m) = (Z.of_nat (count (slice sql 0 (fst m)) newline) + 1)%Z.
Proof. now destruct r as [[[[[? ?] ?] ?] ?] ?]. Qed.

Lemma finding_of_score r sql m : score (finding_of r sql m) = rule_score r.
Proof. now destruct r as [[[[[? ?] ?] ?] ?] ?]. Qed.

Lemma filter_rule_findings (P : string -> bool) sql r :
  filter (fun f => P (rule_id f)) (rule_findings sql r) =
  if P (rule_name r) then rule_findings sql r else [].
Proof.
  unfold rule_findings. induction (rule_spans r sql) as [|m ms IH]; simpl.
  - now destruct (P (rule_name r)).
  - rewrite finding_of_rule_id, IH. now destruct (P (rule_name r)).
Qed.

Lemma catalog_scores_positive r : In r RULES -> (0 < rule_score r)%Z.
Proof.
  intros H. unfold RULES in H.
  repeat (destruct H as [<- | H]; [reflexivity|]). destruct H.
Qed.

Lemma findings_scores_positive sql rules :
  incl rules RULES ->
  Forall (fun f => (0 < score f)%Z) (flat_map (rule_findings sql) rules).
Proof.
  intros Hin. apply Forall_forall. intros f Hf.
  apply in_flat_map in Hf. destruct Hf as (r & Hr & Hf).
  unfold rule_findings in Hf. apply in_map_iff in Hf. destruct Hf as (m & <- & _).
  rewrite finding_of_score. apply catalog_scores_positive. now apply Hin.
Qed.

Lemma sum_from l : forall acc, fold_left Z.add l acc = (acc + fold_right Z.add 0 l)%Z.
Proof.
  induction l as [|x l IH]; intros acc; simpl; [lia | rewrite IH; lia].
Qed.

Lemma sum_fold_right l : sum l = fold_right Z.add 0%Z l.
Proof. unfold sum. now rewrite sum_from. Qed.

Lemma sum_app l1 l2 : sum (l1 ++ l2) = (sum l1 + sum l2)%Z.
Proof.
  rewrite !sum_fold_right. induction l1 as [|x l1 IH]; simpl; [reflexivity | lia].
Qed.

Lemma sum_positive (l : list Finding) :
  Forall (fun f => (0 < score f)%Z) l ->
  (0 <= sum (map score l))%Z /\ (sum (map score l) = 0%Z <-> l = []).
Proof.
  rewrite sum_fold_right. induction 1 as [|f l Hf _ [IH1 IH2]]; simpl.
  - split; [lia | tauto].
  - split; [lia|]. split; [lia | discriminate].
Qed.

End Analysis.

(** ** Scores and labels *)

Section Scores.

Open Scope Z_scope.

Lemma risk_label_cases score :
  (50 <= score /\ risk_label score = "CRITICAL") \/
  (30 <= score < 50 /\ risk_label score = "HIGH") \/
  (15 <= score < 30 /\ risk_label score = "MEDIUM") \/
  (score < 15 /\ risk_label score = "LOW").
Proof.
  unfold risk_label. rewrite !Z.geb_leb.
  destruct (Z.leb_spec 50 score); [now left|].
  destruct (Z.leb_spec 30 score); [right; left; split; [lia | reflexivity]|].
  destruct (Z.leb_spec 15 score); [right; right; left; split; [lia | reflexivity]|].
  right; right; right. split; [lia | reflexivity].
Qed.

(** C3: [risk_label] is total, returns one of the four labels, and uses the
    inclusive lower bounds 50, 30 and 15, the highest first; the six
    boundary values are classified as stated. *)
Theorem risk_label_thresholds :
  (forall score,
     In (risk_label score) ["LOW"; "MEDIUM"; "HIGH"; "CRITICAL"]%string /\
     (risk_label score = "CRITICAL" <-> 50 <= score) /\
     (risk_label score = "HIGH" <-> 30 <= score < 50) /\
     (risk_label score = "MEDIUM" <-> 15 <= score < 30) /\
     (risk_label score = "LOW" <-> score < 15)) /\
  risk_label 14 = "LOW" /\ risk_label 15 = "MEDIUM" /\ risk_label 29 = "MEDIUM" /\
  risk_label 30 = "HIGH" /\ risk_label 49 = "HIGH" /\ risk_label 50 = "CRITICAL".
Proof.
  split; [|repeat split].
  intros score.
  destruct (risk_label_cases score) as [[H ->] | [[H ->] | [[H ->] | [H ->]]]];
    (split; [simpl; tauto|]);
    repeat split; intros; try lia; try discriminate; try reflexivity.
Qed.

(** C10: [risk_label] is monotone for the order LOW < MEDIUM < HIGH < CRITICAL. *)
Theorem risk_label_monotone s1 s2 :
  0 <= s1 -> s1 <= s2 ->
  label_rank (risk_label s1) <= label_rank (risk_label s2).
Proof.
  intros _ Hle.
  destruct (risk_label_cases s1) as [[H1 ->] | [[H1 ->] | [[H1 ->] | [H1 ->]]]];
    destruct (risk_label_cases s2) as [[H2 ->] | [[H2 ->] | [[H2 ->] | [H2 ->]]]];
    cbv; try discriminate; lia.
Qed.

Lemma risk_label_monotone_witness :
  0 <= 14 /\ 14 <= 30 /\ label_rank (risk_label 14) <= label_rank (risk_label 30).
Proof.
  split; [lia|]. split; [lia|]. apply risk_label_monotone; lia.
Defined.

End Scores.

(** ** Properties of every analysis *)

Section Engine.

Open Scope Z_scope.

Lemma total_score_spec fp fs : total_score (mkAnalysisResult fp fs) = sum (map score fs).
Proof. reflexivity. Qed.

(** C2: on every text the analysis returns a result, whose total score is
    not negative; the empty text and text without SQL give no finding. *)
Theorem analyze_sql_never_fails :
  (forall sql file_path include_django,
     exists res, analyze_sql sql file_path include_django = Some res /\
                 0 <= total_score res) /\
  analyze_sql "" "<stdin>" true = Some (mkAnalysisResult "<stdin>" []) /\
  analyze_sql "}{ ;;) NOT (( \b ALTER [^" "<stdin>" true
    = Some (mkAnalysisResult "<stdin>" []).
Proof.
  split; [|split; reflexivity].
  intros sql fp d. rewrite analyze_sql_spec. eexists. split; [reflexivity|].
  rewrite total_score_spec.
  apply sum_positive, findings_scores_positive, active_rules_incl.
Qed.

(** C7: the total score is the sum of the scores of the findings; it is not
    negative, it is zero exactly when there is no finding, and every
    finding has a positive score. *)
Theorem total_score_invariants sql file_path include_django :
  exists res, analyze_sql sql file_path include_django = Some res /\
    total_score res = fold_right Z.add 0 (map score (findings res)) /\
    0 <= total_score res /\
    (total_score res = 0 <-> findings res = []) /\
    Forall (fun f => 0 < score f) (findings res).
Proof.
  rewrite analyze_sql_spec. eexists. split; [reflexivity|].
  rewrite total_score_spec. cbn [findings].
  pose proof (findings_scores_positive (list_ascii_of_string sql)
                (active_rules_incl include_django)) as Hpos.
  split; [apply sum_fold_right|].
  split; [now apply sum_positive|]. split; [now apply sum_positive | exact Hpos].
Qed.

Lemma sum_rule_findings text r :
  sum (map score (rule_findings text r)) =
  rule_score r * Z.of_nat (List.length (rule_spans r text)).
Proof.
  unfold rule_findings. rewrite map_map, sum_fold_right.
  generalize (rule_score r) (finding_of_score r text). intros z Hz.
  induction (rule_spans r text) as [|m ms IHm]; cbn [map fold_right List.length].
  - change (Z.of_nat 0) with 0. lia.
  - rewrite Hz, IHm, Nat2Z.inj_succ. lia.
Qed.

Lemma flat_map_filter {A B} (q : A -> bool) (f : A -> list B) l :
  flat_map f (filter q l) = flat_map (fun x => if q x then f x else []) l.
Proof.
  induction l as [|x l IH]; simpl; [reflexivity|].
  destruct (q x); simpl; now rewrite IH.
Qed.

Lemma filter_flat_map {A B} (q : B -> bool) (f : A -> list B) l :
  filter q (flat_map f l) = flat_map (fun x => filter q (f x)) l.
Proof.
  induction l as [|x l IH]; simpl; [reflexivity|]. now rewrite filter_app, IH.
Qed.

(** C4: without the framework rules no finding carries an MS1xx id, and the
    findings of the other rules are the same with and without them. *)
Theorem framework_rules_opt_out :
  (forall sql file_path,
     exists res_on res_off,
       analyze_sql sql file_path true = Some res_on /\
       analyze_sql sql file_path false = Some res_off /\
       (forall f, In f (findings res_off) -> is_framework f = false) /\
       findings res_off = filter (fun f => negb (is_framework f)) (findings res_on)) /\
  (exists res, analyze_sql "RunPython(populate_data)" "<stdin>" false = Some res /\
               filter is_framework (findings res) = []) /\
  (exists res, analyze_sql "RunPython(populate_data)" "<stdin>" true = Some res /\
               map rule_id (findings res) = ["MS101"%string]).
Proof.
  split; [|split; eexists; split; reflexivity].
  intros sql fp. rewrite !analyze_sql_spec. do 2 eexists.
  split; [reflexivity|]. split; [reflexivity|]. cbn [findings].
  set (text := list_ascii_of_string sql).
  assert (Hoff : flat_map (rule_findings text) (active_rules false) =
                 filter (fun f => negb (is_framework f))
                        (flat_map (rule_findings text) (active_rules true))).
  { unfold active_rules. rewrite !flat_map_filter, filter_flat_map.
    apply flat_map_ext. intros r. cbv beta. cbn [orb].
    unfold is_framework.
    rewrite (filter_rule_findings (fun n => negb (startswith n "MS1"))).
    reflexivity. }
  split; [|exact Hoff].
  intros f Hf. rewrite Hoff in Hf. apply filter_In in Hf.
  now apply negb_true_iff.
Qed.

(** C8: every rule contributes the findings it yields on its own, one per
    reported occurrence, whatever the other rules find, and the total is
    the sum over the rules; the three-statement script gives three
    findings and a total of 105. *)
Theorem rules_accumulate_independently :
  (forall sql file_path include_django,
     exists res, analyze_sql sql file_path include_django = Some res /\
       (forall r, In r (active_rules include_django) ->
          exists occurrences alone,
            finditer (rule_pattern r) (list_ascii_of_string sql) re_flags
              = Some occurrences /\
            analyze_rules [r] (list_ascii_of_string sql) [] = Some alone /\
            List.length alone = List.length occurrences /\
            filter (fun f => String.eqb (rule_id f) (rule_name r)) (findings res)
              = alone) /\
       total_score res =
         sum (map (fun r => rule_score r *
                            Z.of_nat (List.length
                                        (rule_spans r (list_ascii_of_string sql))))
                  (active_rules include_django))) /\
  (exists res,
     analyze_sql (String.concat nl
                    ["ALTER TABLE t DROP COLUMN a;"; "DROP TABLE t;";
                     "CREATE INDEX i ON t(c);"]%string) "<stdin>" true = Some res /\
     map rule_id (findings res) = ["MS002"; "MS003"; "MS005"]%string /\
     List.length (findings res) = 3%nat /\ total_score res = 105).
Proof.
  split; [|eexists; split; [reflexivity | repeat split]].
  intros sql fp d. rewrite analyze_sql_spec. eexists. split; [reflexivity|].
  set (text := list_ascii_of_string sql). cbn [findings]. split.
  - intros r Hr. exists (rule_spans r text), (rule_findings text r).
    pose proof (active_rules_incl _ _ Hr) as HR.
    split; [now apply finditer_catalog|].
    split; [rewrite analyze_rules_spec by (intros x [<-|[]]; exact HR);
            simpl; now rewrite app_nil_r|].
    split; [apply length_map|].
    rewrite filter_flat_map.
    assert (Hall : forall rules, incl rules RULES -> NoDup (map rule_name rules) ->
              flat_map (fun x => filter (fun f => String.eqb (rule_id f) (rule_name r))
                                        (rule_findings text x)) rules =
              if existsb (fun x => String.eqb (rule_name x) (rule_name r)) rules
              then rule_findings text r else []).
    { induction rules as [|x rules IH]; intros Hincl Hnd; [reflexivity|].
      simpl. inversion Hnd as [|? ? Hx Hnd']; subst.
      rewrite (filter_rule_findings (fun n => String.eqb n (rule_name r))).
      rewrite IH by (auto; intros y Hy; apply Hincl; now right).
      destruct (String.eqb_spec (rule_name x) (rule_name r)) as [Heq|Hne]; simpl.
      - assert (Hno : existsb (fun y => String.eqb (rule_name y) (rule_name r)) rules = false).
        { apply not_true_is_false. intros Hex. apply existsb_exists in Hex.
          destruct Hex as (y & Hy & Hyr). apply String.eqb_eq in Hyr.
          apply Hx. rewrite Heq, <- Hyr. now apply in_map. }
        rewrite Hno, app_nil_r.
        assert (Hxr : x = r).
        { assert (Hx1 : In x RULES) by (apply Hincl; now left).
          clear - Hx1 HR Heq. unfold RULES in Hx1, HR.
          repeat (destruct Hx1 as [<- | Hx1]);
            try (repeat (destruct HR as [<- | HR]); try reflexivity; try discriminate Heq;
                 try contradiction);
            contradiction. }
        now rewrite Hxr.
      - reflexivity. }
    rewrite Hall.
    + assert (Hex : existsb (fun x => String.eqb (rule_name x) (rule_name r))
                      (active_rules d) = true).
      { apply existsb_exists. exists r. split; [exact Hr | apply String.eqb_refl]. }
      now rewrite Hex.
    + apply active_rules_incl.
    + destruct d; vm_compute; repeat constructor; simpl; intuition discriminate.
  - rewrite total_score_spec.
    induction (active_rules d) as [|r rules IH]; [reflexivity|].
    cbn [flat_map map]. rewrite map_app, sum_app, IH, sum_rule_findings.
    rewrite !sum_fold_right. reflexivity.
Qed.

End Engine.

(** ** Line numbers *)

Section Lines.

Lemma count_prefix c : forall l pre n,
  n <= List.length l ->
  List.length
    (filter (fun j => Ascii.eqb (nth j (pre ++ l) zero) c) (seq (List.length pre) n))
  = count (firstn n l) c.
Proof.
  induction l as [|a l IH]; intros pre n Hn.
  - simpl in Hn. now replace n with 0 by lia.
  - destruct n as [|n]; [reflexivity|].
    cbn [seq filter firstn]. rewrite nth_middle.
    specialize (IH (pre ++ [a])%list n).
    rewrite <- app_assoc, length_app, Nat.add_1_r in IH. cbn [app] in IH.
    simpl in Hn. unfold count in *. cbn [count_occ].
    destruct (Ascii.eqb_spec a c) as [->|Hne].
    + destruct (ascii_dec c c) as [_|Hcc]; [|contradiction].
      cbn [List.length]. f_equal. apply IH. lia.
    + destruct (ascii_dec a c) as [Hac|_]; [contradiction|]. apply IH. lia.
Qed.

Lemma newlines_before_count text start :
  start <= List.length text ->
  newlines_before text start = count (slice text 0 start) newline.
Proof.
  intros H. unfold newlines_before, slice. rewrite Nat.sub_0_r. cbn [skipn].
  exact (count_prefix newline text [] H).
Qed.

Lemma length_list_ascii_of_string s :
  List.length (list_ascii_of_string s) = String.length s.
Proof. induction s as [|a s IH]; simpl; congruence. Qed.

Lemma rule_spans_sound r sql start stop :
  In (start, stop) (rule_spans r sql) ->
  exists re pre w rest,
    compile (rule_pattern r) true = Some re /\
    sql = (pre ++ w ++ rest)%list /\
    start = List.length pre /\ stop = start + List.length w /\
    match_here re (after None pre) (w ++ rest) = Some rest.
Proof.
  unfold rule_spans, finditer. cbn [IGNORECASE re_flags].
  destruct (compile (rule_pattern r) true) as [re|]; [|contradiction].
  intros H. apply scan_sound in H. destruct H as (pre & w & rest & H1 & H2 & H3 & H4).
  exists re, pre, w, rest. repeat split; assumption.
Qed.

(** C9: the line of a finding is one more than the number of newlines
    before the start offset of its match. *)
Theorem line_counts_preceding_newlines :
  (forall sql file_path include_django,
     exists res, analyze_sql sql file_path include_django = Some res /\
       forall f, In f (findings res) ->
         exists r occurrences start stop,
           In r (active_rules include_django) /\ rule_id f = rule_name r /\
           finditer (rule_pattern r) (list_ascii_of_string sql) re_flags
             = Some occurrences /\
           In (start, stop) occurrences /\
           f = finding_of r (list_ascii_of_string sql) (start, stop) /\
           start <= String.length sql /\
           line f =
             (1 + Z.of_nat (newlines_before (list_ascii_of_string sql) start))%Z) /\
  (exists res,
     analyze_sql (String.concat nl ["SELECT 1;"; "DROP TABLE users;"]%string)
       "<stdin>" true = Some res /\
     map (fun f => (rule_id f, line f)) (findings res) = [("MS005"%string, 2%Z)]).
Proof.
  split; [|eexists; split; reflexivity].
  intros sql fp d. rewrite analyze_sql_spec. eexists. split; [reflexivity|].
  cbn [findings]. set (text := list_ascii_of_string sql). intros f Hf.
  apply in_flat_map in Hf. destruct Hf as (r & Hr & Hf).
  unfold rule_findings in Hf. apply in_map_iff in Hf.
  destruct Hf as ([start stop] & <- & Hm).
  exists r, (rule_spans r text), start, stop.
  split; [exact Hr|]. split; [apply finding_of_rule_id|].
  split; [apply finditer_catalog; now apply (active_rules_incl d)|].
  split; [exact Hm|]. split; [reflexivity|].
  destruct (rule_spans_sound _ _ _ _ Hm) as (re & pre & w & rest & _ & Ht & Hs & _).
  assert (Hle : start <= List.length text)
    by (rewrite Ht, length_app; lia).
  split.
  - now rewrite <- length_list_ascii_of_string.
  - rewrite newlines_before_count by exact Hle.
    rewrite finding_of_line. cbn [fst]. lia.
Qed.

End Lines.

(** ** Reading a pattern item by item *)

Section Reading.

Open Scope list_scope.

Lemma matches_reads r p s p' s' :
  matches r p s p' s' <-> exists w, s = w ++ s' /\ p' = after p w /\ reads r p w s'.
Proof.
  split.
  - intros H. destruct (matches_split _ _ _ _ _ H) as (w & -> & ->). now exists w.
  - intros (w & -> & -> & H). exact H.
Qed.

Lemma reads_eps p w rest : reads Eps p w rest <-> w = [].
Proof.
  unfold reads. simpl. split.
  - intros [_ H]. apply (app_inv_tail rest w []). now symmetry.
  - now intros ->.
Qed.

Lemma reads_chr c p w rest :
  reads (Chr c) p w rest <-> exists a, w = [a] /\ cmatch c a = true.
Proof.
  unfold reads. simpl. split.
  - intros (a & H & Hc & _). exists a. split; [|exact Hc].
    now apply (app_inv_tail rest w [a]).
  - intros (a & -> & Hc). now exists a.
Qed.


Lemma reads_plus c p w rest :
  reads (Plus c) p w rest <-> w <> [] /\ all_of (cmatch c) w.
Proof.
  unfold reads. simpl. split.
  - intros (a & s1 & Hs & Hc & H). destruct (runs_split H) as (w' & -> & _ & Hall).
    apply (app_inv_tail rest w (a :: w')) in Hs. subst. split; [discriminate|].
    now constructor.
  - intros [Hne Hall]. destruct w as [|a w]; [contradiction|].
    inversion Hall; subst. exists a, (w ++ rest). repeat split; [assumption|].
    cbn [after]. now apply runs_join.
Qed.


Lemma reads_not_ahead r p w rest :
  reads (NotAhead r) p w rest <->
  w = [] /\ ~ exists w' rest', rest = w' ++ rest' /\ reads r p w' rest'.
Proof.
  unfold reads. simpl. split.
  - intros (Hno & _ & H). symmetry in H. apply (app_inv_tail rest w []) in H. subst.
    split; [reflexivity|]. intros (w' & rest' & -> & Hr). apply Hno.
    now exists (after p w'), rest'.
  - intros [-> Hno]. repeat split. intros (pm & sm & H). apply Hno.
    apply matches_reads in H. destruct H as (w' & Hs & _ & Hr). now exists w', sm.
Qed.

Lemma reads_opt r p w rest : reads (Opt r) p w rest <-> reads r p w rest \/ w = [].
Proof.
  unfold reads. simpl. split.
  - intros [H | [_ H]]; [now left | right].
    symmetry in H. now apply (app_inv_tail rest w []) in H.
  - intros [H | ->]; [now left | now right].
Qed.

Lemma reads_seq r1 r2 p w rest :
  reads (Seq r1 r2) p w rest <->
  exists w1 w2, w = w1 ++ w2 /\ reads r1 p w1 (w2 ++ rest) /\
                reads r2 (after p w1) w2 rest.
Proof.
  unfold reads. simpl. split.
  - intros (pm & sm & H1 & H2).
    destruct (matches_split _ _ _ _ _ H1) as (w1 & Hs & ->).
    destruct (matches_split _ _ _ _ _ H2) as (w2 & -> & Ha).
    rewrite app_assoc in Hs. apply app_inv_tail in Hs. subst w.
    exists w1, w2. rewrite <- app_assoc in H1. now rewrite Ha in H2.
  - intros (w1 & w2 & -> & H1 & H2).
    exists (after p w1), (w2 ++ rest). rewrite <- app_assoc, after_app. now split.
Qed.

Lemma reads_seq_of_app l1 l2 p w rest :
  reads (seq_of (l1 ++ l2)) p w rest <->
  exists w1 w2, w = w1 ++ w2 /\ reads (seq_of l1) p w1 (w2 ++ rest) /\
                reads (seq_of l2) (after p w1) w2 rest.
Proof.
  revert p w. induction l1 as [|x l1 IH]; intros p w; cbn [app seq_of].
  - split.
    + intros H. exists [], w. split; [reflexivity|]. split; [now apply reads_eps | exact H].
    + intros (w1 & w2 & -> & H1 & H2). apply reads_eps in H1. now subst.
  - rewrite reads_seq. split.
    + intros (wx & w' & -> & Hx & H'). apply IH in H'.
      destruct H' as (w1 & w2 & -> & H1 & H2).
      exists (wx ++ w1), w2. rewrite app_assoc. split; [reflexivity|].
      rewrite after_app. split; [|exact H2].
      apply reads_seq. exists wx, w1. rewrite <- app_assoc in Hx. now split.
    + intros (w1 & w2 & -> & H1 & H2). apply reads_seq in H1.
      destruct H1 as (wx & w1' & -> & Hx & H1').
      exists wx, (w1' ++ w2). split; [now rewrite app_assoc|].
      split; [now rewrite <- app_assoc|].
      apply IH. exists w1', w2. rewrite after_app in H2. now split.
Qed.

Lemma reads_lits word p w rest :
  reads (seq_of (lits true word)) p w rest <-> ignoring_case word w.
Proof.
  unfold lits, ignoring_case. revert p w.
  induction (list_ascii_of_string word) as [|c cs IH]; intros p w; cbn [map seq_of].
  - rewrite reads_eps. split; [intros ->; constructor | now inversion 1].
  - rewrite reads_seq. split.
    + intros (w1 & w2 & -> & H1 & H2). apply reads_chr in H1.
      destruct H1 as (a & -> & Hc). apply IH in H2. constructor; [|exact H2].
      simpl in Hc. unfold lit_match in Hc. now apply Ascii.eqb_eq in Hc.
    + inversion 1 as [|c' a cs' w' Ha Hw]; subst.
      exists [a], w'. split; [reflexivity|]. split.
      * apply reads_chr. exists a. split; [reflexivity|].
        simpl. unfold lit_match. now apply Ascii.eqb_eq.
      * now apply IH.
Qed.

End Reading.

(** ** MS101: RunPython *)



Section RunPython.

Open Scope list_scope.



Lemma compiled_ms101 : compiled "MS101" = Some ms101.
Proof. reflexivity. Qed.



Lemma slice_middle (pre w rest : list ascii) :
  slice (pre ++ w ++ rest) (List.length pre) (List.length pre + List.length w) = w.
Proof.
  unfold slice. rewrite skipn_app, Nat.sub_diag, skipn_all. cbn [skipn app].
  replace (List.length pre + List.length w - List.length pre) with (List.length w) by lia.
  rewrite firstn_app, Nat.sub_diag, firstn_all. cbn [firstn]. apply app_nil_r.
Qed.

Lemma rule_named_unique r : In r RULES -> rule_named (rule_name r) = Some r.
Proof.
  intros H. unfold RULES in H.
  repeat (destruct H as [<- | H]; [reflexivity|]). destruct H.
Qed.

Lemma rule_spans_scan r re text :
  compile (rule_pattern r) true = Some re -> rule_spans r text = scan re 0 0 None text.
Proof.
  intros H. unfold rule_spans, finditer. cbn [IGNORECASE re_flags]. now rewrite H.
Qed.

(** A rule has a finding exactly when its pattern matches somewhere. *)
Lemma has_rule_iff name r re text d :
  rule_named name = Some r -> In r (active_rules d) ->
  compile (rule_pattern r) true = Some re ->
  has_rule name (flat_map (rule_findings text) (active_rules d)) = true <->
  exists pre s, text = pre ++ s /\ match_here re (after None pre) s <> None.
Proof.
  intros Hname Hin Hre. rewrite <- scan_nonempty_iff, <- (rule_spans_scan r text Hre).
  unfold has_rule. rewrite existsb_exists. split.
  - intros (f & Hf & Hid). apply String.eqb_eq in Hid.
    apply in_flat_map in Hf. destruct Hf as (r' & Hr' & Hf).
    unfold rule_findings in Hf. apply in_map_iff in Hf. destruct Hf as (m & <- & Hm).
    rewrite finding_of_rule_id in Hid.
    assert (r' = r) as ->.
    { apply active_rules_incl, rule_named_unique in Hr'. congruence. }
    intros Hnil. now rewrite Hnil in Hm.
  - intros Hne. destruct (rule_spans r text) as [|m ms] eqn:Hs; [contradiction|].
    exists (finding_of r text m). split.
    + apply in_flat_map. exists r. split; [exact Hin|].
      unfold rule_findings. rewrite Hs. now left.
    + rewrite finding_of_rule_id. apply String.eqb_eq.
      pose proof (active_rules_incl _ _ Hin) as HR.
      apply rule_named_unique in HR.
      unfold rule_named in *. apply find_some in Hname.
      now apply String.eqb_eq.
Qed.






End RunPython.

(** ** MS001: ADD ... NOT NULL without DEFAULT *)

Section Default.

Open Scope list_scope.

Lemma ascii_forall (P : ascii -> bool) :
  forallb P all_ascii = true -> forall a, P a = true.
Proof.
  intros H a. rewrite forallb_forall in H. apply H.
  unfold all_ascii. apply in_map_iff. exists (nat_of_ascii a).
  split; [apply ascii_nat_embedding|]. apply in_seq.
  pose proof (nat_ascii_bounded a). lia.
Qed.

Lemma lower_keeps_class a : is_word (lower a) = is_word a.
Proof.
  apply eqb_prop.
  exact (ascii_forall (fun x => Bool.eqb (is_word (lower x)) (is_word x))
           ltac:(vm_compute; reflexivity) a).
Qed.

Lemma same_letter_same_class a c : lower a = lower c -> is_word a = is_word c.
Proof.
  intros H. now rewrite <- (lower_keeps_class a), H, lower_keeps_class.
Qed.








End Default.


Section NotNull.

Open Scope list_scope.

Lemma compiled_ms001 : compiled "MS001" = Some ms001.
Proof. reflexivity. Qed.














End NotNull.

(** ** MS003: CREATE INDEX *)

Section CreateIndex.

Open Scope list_scope.

Lemma compiled_ms003 : compiled "MS003" = Some ms003.
Proof. reflexivity. Qed.

Lemma blank_is_not_c b : is_space b = true -> lower b <> lower "C"%char.
Proof.
  intros Hb Hc. apply Ascii.eqb_eq in Hc.
  pose proof (ascii_forall
    (fun x => implb (is_space x) (negb (Ascii.eqb (lower x) (lower "C"))))
    ltac:(vm_compute; reflexivity) b) as H.
  cbv beta in H. now rewrite Hb, Hc in H.
Qed.

(** With a second blank in front of it, whatever follows is not looked at:
    the pattern stops after the first blank. *)
Lemma reads_ms003_second_blank p create ws index a b tail :
  ignoring_case "CREATE" create -> blanks ws -> ignoring_case "INDEX" index ->
  is_space a = true -> is_space b = true ->
  reads ms003 p (create ++ ws ++ index ++ [a]) (b :: tail).
Proof.
  intros Hcreate Hws Hindex Ha Hb. unfold ms003.
  apply reads_seq_of_app. exists create, (ws ++ index ++ [a]).
  split; [reflexivity|]. split; [now apply reads_lits|].
  cbn [app seq_of].
  apply reads_seq. exists ws, (index ++ [a]).
  split; [reflexivity|]. split; [now apply reads_plus|].
  apply reads_seq. exists [], (index ++ [a]).
  split; [reflexivity|]. split; [apply reads_opt; now right|].
  apply reads_seq_of_app. exists index, [a].
  split; [reflexivity|]. split; [now apply reads_lits|].
  cbn [seq_of]. apply reads_seq. exists [a], [].
  split; [reflexivity|]. split.
  - apply reads_plus. split; [discriminate|]. now repeat constructor.
  - apply reads_seq. exists [], []. split; [reflexivity|]. split; [|now apply reads_eps].
    apply reads_not_ahead. split; [reflexivity|].
    intros (w' & rest' & Hs & Hr). apply reads_lits in Hr.
    inversion Hr as [|c x cs w'' Hx Hrest Hc Hw]; subst.
    simpl in Hs. injection Hs as <- _. now apply (@blank_is_not_c b).
Qed.

(** C5: a plain CREATE INDEX is reported and, with one blank in between,
    CREATE INDEX CONCURRENTLY is not; but with two blanks between INDEX
    and CONCURRENTLY the rule reports the statement although CONCURRENTLY
    follows CREATE INDEX. *)
Theorem create_index_concurrently_after_two_blanks :
  (exists res,
     analyze_sql "CREATE INDEX  CONCURRENTLY idx ON users (email);" "<stdin>" true
       = Some res /\
     map (fun f => (rule_id f, line f, sql_snippet f)) (findings res)
       = [("MS003", 1%Z, "CREATE INDEX")]%string) /\
  (forall a b tail,
     is_space a = true -> is_space b = true ->
     exists res,
       analyze_sql ("CREATE INDEX" ++ String a (String b ("CONCURRENTLY" ++ tail)))%string
         "<stdin>" true = Some res /\
       has_rule "MS003" (findings res) = true) /\
  (exists res,
     analyze_sql "CREATE INDEX CONCURRENTLY idx ON users (email);" "<stdin>" true
       = Some res /\ has_rule "MS003" (findings res) = false) /\
  (exists res,
     analyze_sql "CREATE INDEX idx ON users (email);" "<stdin>" true = Some res /\
     has_rule "MS003" (findings res) = true).
Proof.
  split; [eexists; split; vm_compute; reflexivity|].
  split; [|split; eexists; split; vm_compute; reflexivity].
  intros a b tail Ha Hb. rewrite analyze_sql_spec. eexists. split; [reflexivity|].
  cbn [findings].
  apply (@has_rule_iff "MS003" _ ms003 _ true eq_refl);
    [vm_compute; tauto | reflexivity |].
  exists [], (list_ascii_of_string
                ("CREATE INDEX" ++ String a (String b ("CONCURRENTLY" ++ tail)))%string).
  split; [reflexivity|]. apply match_here_iff.
  exists (Some a), (b :: list_ascii_of_string ("CONCURRENTLY" ++ tail)%string).
  apply (@reads_ms003_second_blank None
           (list_ascii_of_string "CREATE") (list_ascii_of_string " ")
           (list_ascii_of_string "INDEX") a b);
    try assumption; try (repeat constructor).
  discriminate.
Qed.

End CreateIndex.

(** * Further properties of the engine *)


Section Order.

Open Scope list_scope.

Lemma scan_starts r : forall s pos skip p i e,
  In (i, e) (scan r pos skip p s) -> pos + skip <= i.
Proof.
  induction s as [|a s IH]; intros pos skip p i e H.
  - destruct skip as [|skip]; simpl in H; [|contradiction].
    destruct (match_here r p []); [|contradiction].
    destruct H as [H|[]]. injection H as <- _. lia.
  - destruct skip as [|skip]; simpl in H.
    + destruct (match_here r p (a :: s)) as [rest|].
      * destruct H as [H|H]; [injection H as <- _; lia|].
        apply IH in H. lia.
      * apply IH in H. lia.
    + apply IH in H. lia.
Qed.

(** The spans of [finditer] come from left to right and do not overlap. *)
Lemma scan_sorted r : forall s pos skip p,
  StronglySorted span_before (scan r pos skip p s).
Proof.
  induction s as [|a s IH]; intros pos skip p.
  - destruct skip as [|skip]; simpl; [|constructor].
    destruct (match_here r p []); repeat constructor.
  - destruct skip as [|skip]; simpl; [|apply IH].
    destruct (match_here r p (a :: s)) as [rest|]; [|apply IH].
    constructor; [apply IH|].
    apply Forall_forall. intros [i e] Hin. apply scan_starts in Hin.
    unfold span_before. cbn [fst snd]. lia.
Qed.

Lemma strongly_sorted_app {A} (R : A -> A -> Prop) l1 l2 :
  StronglySorted R l1 -> StronglySorted R l2 ->
  (forall a b, In a l1 -> In b l2 -> R a b) ->
  StronglySorted R (l1 ++ l2).
Proof.
  induction 1 as [|a l1 Hl1 IH Ha]; intros H2 Hcross; [exact H2|].
  cbn [app]. constructor.
  - apply IH; [exact H2|]. intros x y Hx Hy. apply Hcross; [now right | exact Hy].
  - apply Forall_app. split; [exact Ha|].
    apply Forall_forall. intros y Hy. apply Hcross; [now left | exact Hy].
Qed.

Lemma strongly_sorted_pick {A} (R : A -> A -> Prop) l1 a l2 b l3 :
  StronglySorted R (l1 ++ a :: l2 ++ b :: l3) -> R a b.
Proof.
  induction l1 as [|x l1 IH]; cbn [app]; intros H.
  - apply StronglySorted_inv in H. destruct H as [_ H].
    rewrite Forall_forall in H. apply H. apply in_or_app. right. now left.
  - apply StronglySorted_inv in H. now apply IH.
Qed.

Lemma strongly_sorted_map {A B} (R : A -> A -> Prop) (Q : B -> B -> Prop) (f : A -> B) l :
  (forall a b, R a b -> Q (f a) (f b)) ->
  StronglySorted R l -> StronglySorted Q (map f l).
Proof.
  intros HRQ. induction 1 as [|a l Hl IH Ha]; cbn [map]; constructor; [exact IH|].
  apply Forall_forall. intros y Hy. apply in_map_iff in Hy. destruct Hy as (b & <- & Hb).
  apply HRQ. rewrite Forall_forall in Ha. now apply Ha.
Qed.

Lemma strongly_sorted_impl {A} (R Q : A -> A -> Prop) l :
  (forall a b, R a b -> Q a b) -> StronglySorted R l -> StronglySorted Q l.
Proof.
  intros H Hs. rewrite <- (map_id l). now apply strongly_sorted_map with (R := R).
Qed.

Lemma count_firstn_le c (l : list ascii) : forall i j,
  i <= j -> count (firstn i l) c <= count (firstn j l) c.
Proof.
  unfold count. induction l as [|a l IH]; intros i j Hij.
  - now rewrite !firstn_nil.
  - destruct i as [|i]; [simpl; lia|]. destruct j as [|j]; [lia|].
    cbn [firstn count_occ]. specialize (IH i j ltac:(lia)).
    destruct (ascii_dec a c); lia.
Qed.

Lemma count_firstn_all c (l : list ascii) i : count (firstn i l) c <= count l c.
Proof.
  destruct (Nat.le_gt_cases i (List.length l)) as [H|H].
  - rewrite <- (firstn_all l) at 2. now apply count_firstn_le.
  - rewrite firstn_all2 by lia. lia.
Qed.

Lemma slice_from_start (l : list ascii) i : slice l 0 i = firstn i l.
Proof. unfold slice. now rewrite Nat.sub_0_r. Qed.

Lemma rule_findings_sorted text r :
  StronglySorted (fun f g => rule_id f = rule_id g /\ (line f <= line g)%Z)
                 (rule_findings text r).
Proof.
  unfold rule_findings.
  apply strongly_sorted_map with (R := span_before).
  - intros a b [Hab _]. rewrite !finding_of_rule_id, !finding_of_line.
    split; [reflexivity|]. rewrite !slice_from_start.
    pose proof (@count_firstn_le newline text (fst a) (fst b) ltac:(lia)). lia.
  - unfold rule_spans, finditer. cbn [IGNORECASE re_flags].
    destruct (compile (rule_pattern r) true); [apply scan_sorted | constructor].
Qed.

Lemma flat_map_sorted text : forall rules,
  StronglySorted (fun r r' => rule_index (rule_name r) < rule_index (rule_name r')) rules ->
  StronglySorted report_order (flat_map (rule_findings text) rules).
Proof.
  induction 1 as [|r rules Hs IH Hr]; cbn [flat_map]; [constructor|].
  apply strongly_sorted_app; [|exact IH|].
  - eapply strongly_sorted_impl; [|apply rule_findings_sorted].
    intros a b H. right. exact H.
  - intros f g Hf Hg. left.
    unfold rule_findings in Hf. apply in_map_iff in Hf. destruct Hf as (m & <- & _).
    apply in_flat_map in Hg. destruct Hg as (r' & Hr' & Hg).
    unfold rule_findings in Hg. apply in_map_iff in Hg. destruct Hg as (m' & <- & _).
    rewrite !finding_of_rule_id. rewrite Forall_forall in Hr. now apply Hr.
Qed.

Lemma active_rules_increasing d :
  StronglySorted (fun r r' => rule_index (rule_name r) < rule_index (rule_name r'))
                 (active_rules d).
Proof.
  destruct d; vm_compute; repeat constructor.
Qed.

(** X1: the findings of a report stand in catalog order of their rules and,
    within one rule, by line number. *)
Theorem findings_in_catalog_and_line_order sql file_path include_django :
  exists res, analyze_sql sql file_path include_django = Some res /\
    forall l1 f l2 g l3,
      findings res = l1 ++ f :: l2 ++ g :: l3 -> report_order f g.
Proof.
  rewrite analyze_sql_spec. eexists. split; [reflexivity|]. cbn [findings].
  intros l1 f l2 g l3 H.
  apply (@strongly_sorted_pick _ report_order l1 f l2 g l3). rewrite <- H.
  apply flat_map_sorted, active_rules_increasing.
Qed.

End Order.

Section Findings.

Open Scope list_scope.

(** X2: the line of a finding lies between 1 and the number of lines of
    the text. *)
Theorem finding_line_within_text sql file_path include_django :
  exists res, analyze_sql sql file_path include_django = Some res /\
    Forall (fun f =>
              (1 <= line f <= 1 + Z.of_nat (count (list_ascii_of_string sql) newline))%Z)
           (findings res).
Proof.
  rewrite analyze_sql_spec. eexists. split; [reflexivity|]. cbn [findings].
  apply Forall_forall. intros f Hf. apply in_flat_map in Hf.
  destruct Hf as (r & _ & Hf). unfold rule_findings in Hf.
  apply in_map_iff in Hf. destruct Hf as (m & <- & _).
  rewrite finding_of_line, slice_from_start.
  pose proof (count_firstn_all newline (list_ascii_of_string sql) (fst m)). lia.
Qed.

Lemma catalog_scores_at_least_20 r : In r RULES -> (20 <= rule_score r)%Z.
Proof.
  intros H. unfold RULES in H.
  repeat (destruct H as [<- | H]; [cbn; lia|]). destruct H.
Qed.

Lemma sum_at_least (fs : list Finding) :
  Forall (fun f => (20 <= score f)%Z) fs ->
  (20 * Z.of_nat (List.length fs) <= sum (map score fs))%Z.
Proof.
  rewrite sum_fold_right. induction 1 as [|f fs Hf _ IH]; cbn [map fold_right List.length].
  - change (Z.of_nat 0) with 0%Z. lia.
  - rewrite Nat2Z.inj_succ. lia.
Qed.

(** X3: each finding adds at least 20 to the total, so that the label of
    the total is LOW exactly when there is no finding. *)
Theorem any_finding_lifts_the_label sql file_path include_django :
  exists res, analyze_sql sql file_path include_django = Some res /\
    (20 * Z.of_nat (List.length (findings res)) <= total_score res)%Z /\
    (risk_label (total_score res) = "LOW"%string <-> findings res = []).
Proof.
  rewrite analyze_sql_spec. eexists. split; [reflexivity|].
  rewrite total_score_spec. cbn [findings].
  set (fs := flat_map (rule_findings (list_ascii_of_string sql))
                      (active_rules include_django)).
  assert (Hall : Forall (fun f => (20 <= score f)%Z) fs).
  { apply Forall_forall. intros f Hf. apply in_flat_map in Hf.
    destruct Hf as (r & Hr & Hf). unfold rule_findings in Hf.
    apply in_map_iff in Hf. destruct Hf as (m & <- & _).
    rewrite finding_of_score. apply catalog_scores_at_least_20.
    now apply (active_rules_incl include_django). }
  pose proof (sum_at_least Hall) as Hsum. split; [exact Hsum|].
  destruct (risk_label_cases (sum (map score fs)))
    as [[H ->] | [[H ->] | [[H ->] | [H ->]]]].
  - split; [discriminate|]. intros E. rewrite E in H. cbn in H. lia.
  - split; [discriminate|]. intros E. rewrite E in H. cbn in H. lia.
  - split; [discriminate|]. intros E. rewrite E in H. cbn in H. lia.
  - split; [|reflexivity]. intros _. destruct fs as [|f fs']; [reflexivity|].
    cbn [List.length] in Hsum. rewrite Nat2Z.inj_succ in Hsum. lia.
Qed.

(** X4: a finding copies its id, severity, score, message and remediation
    from one active catalog entry; no finding has severity LOW. *)
Theorem findings_copy_the_catalog sql file_path include_django :
  exists res, analyze_sql sql file_path include_django = Some res /\
    forall f, In f (findings res) ->
      severity f <> LOW /\
      exists pattern,
        In (rule_id f, severity f, score f, pattern, message f, remediation f)
           (active_rules include_django).
Proof.
  rewrite analyze_sql_spec. eexists. split; [reflexivity|]. cbn [findings].
  intros f Hf. apply in_flat_map in Hf. destruct Hf as (r & Hr & Hf).
  unfold rule_findings in Hf. apply in_map_iff in Hf. destruct Hf as (m & <- & _).
  destruct r as [[[[[id sev] sc] pat] msg] rem]. cbn. split.
  - apply active_rules_incl in Hr. unfold RULES in Hr.
    repeat (destruct Hr as [Hr | Hr]; [injection Hr as <- <- <- <- <- <-; discriminate|]).
    destruct Hr.
  - now exists pat.
Qed.

Lemma lstrip_split s : exists d, s = d ++ lstrip s /\ all_of is_space d.
Proof.
  induction s as [|a s (d & IH & Hd)]; [exists []; split; [reflexivity | constructor]|].
  cbn [lstrip]. destruct (is_space a) eqn:Ha.
  - exists (a :: d). split; [cbn; now f_equal | now constructor].
  - exists []. split; [reflexivity | constructor].
Qed.

Lemma lstrip_head a s : is_space a = false -> lstrip (a :: s) = a :: s.
Proof. intros H. cbn. now rewrite H. Qed.

(** Stripping a text that starts with a visible character keeps a
    non-empty beginning of it. *)
Lemma strip_prefix a s :
  is_space a = false -> exists t d, strip (a :: s) = a :: t /\ a :: s = (a :: t) ++ d.
Proof.
  intros Ha. unfold strip. rewrite (@lstrip_head a s Ha).
  destruct (lstrip_split (rev (a :: s))) as (d & Hd & Hsp).
  assert (Hw : a :: s = rev (lstrip (rev (a :: s))) ++ rev d).
  { rewrite <- rev_app_distr, <- Hd. now rewrite rev_involutive. }
  destruct (rev (lstrip (rev (a :: s)))) as [|b t] eqn:Hr.
  - exfalso. cbn [app] in Hw.
    assert (Hin : In a (rev d)) by (rewrite <- Hw; now left).
    apply in_rev in Hin. unfold all_of in Hsp. rewrite Forall_forall in Hsp.
    apply Hsp in Hin. congruence.
  - cbn [app] in Hw. injection Hw as <- Hs. exists t, (rev d). split; [reflexivity|].
    cbn [app]. now f_equal.
Qed.

Lemma space_is_not_word a : is_word a = true -> is_space a = false.
Proof.
  intros Hw.
  pose proof (ascii_forall (fun x => implb (is_word x) (negb (is_space x)))
                ltac:(vm_compute; reflexivity) a) as H.
  cbv beta in H. rewrite Hw in H. now apply negb_true_iff.
Qed.

Lemma catalog_first_letter r re :
  In r RULES -> compile (rule_pattern r) true = Some re ->
  exists c r2, re = Seq (Chr (CLit true c)) r2 /\ is_word c = true.
Proof.
  intros Hr Hc. unfold RULES in Hr.
  repeat (destruct Hr as [<- | Hr];
          [vm_compute in Hc; injection Hc as <-; do 2 eexists; split; reflexivity|]).
  destruct Hr.
Qed.

Lemma length_string_of_list_ascii l :
  String.length (string_of_list_ascii l) = List.length l.
Proof. induction l as [|a l IH]; simpl; congruence. Qed.

(** X5: the snippet of a finding is a piece of the text that begins at the
    start of the match; it is not empty, holds at most 80 characters and
    begins with a letter of the rule's first keyword, not with a blank. *)
Theorem snippet_is_the_match_start sql file_path include_django :
  exists res, analyze_sql sql file_path include_django = Some res /\
    forall f, In f (findings res) ->
      exists r occurrences start stop a snip rest,
        In r (active_rules include_django) /\
        finditer (rule_pattern r) (list_ascii_of_string sql) re_flags
          = Some occurrences /\
        In (start, stop) occurrences /\
        f = finding_of r (list_ascii_of_string sql) (start, stop) /\
        list_ascii_of_string (sql_snippet f) = a :: snip /\
        is_space a = false /\
        String.length (sql_snippet f) <= 80 /\
        skipn start (list_ascii_of_string sql) = (a :: snip) ++ rest.
Proof.
  rewrite analyze_sql_spec. eexists. split; [reflexivity|]. cbn [findings].
  set (text := list_ascii_of_string sql). intros f Hf.
  apply in_flat_map in Hf. destruct Hf as (r & Hr & Hf).
  unfold rule_findings in Hf. apply in_map_iff in Hf.
  destruct Hf as ([start stop] & <- & Hm).
  pose proof (active_rules_incl _ _ Hr) as HR.
  destruct (rule_spans_sound _ _ _ _ Hm) as (re & pre & w & rest & Hre & Ht & Hs & He & Hmatch).
  destruct (@catalog_first_letter r re HR Hre) as (c & r2 & -> & Hc).
  destruct (match_here_stops _ _ _ Hmatch) as (p' & pm & sm & (a & Hw & Ha & _) & _).
  destruct w as [|a' w]; cbn [app] in Hw.
  { exfalso. pose proof Hmatch as Hlt. apply letter_first_consumes in Hlt.
    cbn [app] in Hlt. lia. }
  injection Hw as -> _.
  assert (Hsp : is_space a = false).
  { apply space_is_not_word. cbn in Ha. unfold lit_match in Ha.
    apply Ascii.eqb_eq in Ha. now rewrite (same_letter_same_class a c). }
  destruct (@strip_prefix a w Hsp) as (t & d & Hstrip & Hsplit).
  assert (Hsnip : sql_snippet (finding_of r text (start, stop)) =
                  string_of_list_ascii (firstn 80 (strip (a :: w)))).
  { assert (Hslice : slice text start stop = a :: w)
      by (rewrite He, Hs, Ht; apply slice_middle).
    destruct r as [[[[[? ?] ?] ?] ?] ?]. cbn [finding_of sql_snippet fst snd].
    now rewrite Hslice. }
  exists r, (rule_spans r text), start, stop, a, (firstn 79 t),
    (skipn 79 t ++ d ++ rest).
  split; [exact Hr|]. split; [now apply finditer_catalog|].
  split; [exact Hm|]. split; [reflexivity|].
  rewrite Hsnip, Hstrip, list_ascii_of_string_of_list_ascii.
  split; [reflexivity|]. split; [exact Hsp|]. split.
  - rewrite length_string_of_list_ascii. apply firstn_le_length.
  - rewrite Ht, Hs, skipn_app, Nat.sub_diag, skipn_all. cbn [skipn app].
    cbn [app] in Hsplit. injection Hsplit as Hw. f_equal.
    rewrite Hw, <- (firstn_skipn 79 t) at 1. now rewrite <- !app_assoc.
Qed.

End Findings.

(** * The command line *)

Section CommandLine.

Import Cli.

Open Scope list_scope.

Lemma analyze_file_readable files p content d :
  files p = Some content ->
  analyze_file files p d =
  inr (mkAnalysisResult p (file_findings files d p)).
Proof.
  intros H. unfold analyze_file, file_findings. rewrite H.
  now rewrite analyze_sql_spec.
Qed.

Lemma analyze_paths_readable files d : forall paths state,
  readable files paths ->
  analyze_paths files paths d state =
  inr (fst state ++ batch_findings files paths d,
       (snd state + batch_total files paths d)%Z).
Proof.
  unfold batch_total, batch_findings.
  induction paths as [|p paths IH]; intros [fs t] Hr; cbn [analyze_paths fst snd flat_map].
  - rewrite app_nil_r. cbn. now rewrite Z.add_0_r.
  - destruct (files p) as [content|] eqn:Hp; [|now exfalso; apply (Hr p); [left|]].
    rewrite (@analyze_file_readable files p content d Hp).
    rewrite IH by (intros q Hq; apply Hr; now right).
    cbn [fst snd findings]. rewrite total_score_spec, map_app, sum_app, <- app_assoc.
    f_equal. f_equal. lia.
Qed.


Lemma severity_color s : exists c, getitem COLORS (Severity_name s) = inr c.
Proof. destruct s; eexists; reflexivity. Qed.

Lemma table_rows_succeed fs : exists rows, table_rows fs = inr rows.
Proof.
  induction fs as [|f fs (rows & IH)]; [now exists []|].
  cbn [table_rows]. destruct (severity_color (severity f)) as (c & ->).
  rewrite IH. eexists. reflexivity.
Qed.

Lemma label_color t : exists c, getitem COLORS (risk_label t) = inr c.
Proof.
  destruct (risk_label_cases t) as [[_ ->] | [[_ ->] | [[_ ->] | [_ ->]]]];
    eexists; reflexivity.
Qed.

(** What [main] does once every file was read. *)
Lemma main_readable files paths threshold fmt no_django :
  paths <> [] -> readable files paths ->
  exists out,
    main files paths threshold fmt no_django =
    inr (mkRun out (if (batch_total files paths (negb no_django) <? threshold)%Z
                    then 0%Z else 1%Z)).
Proof.
  intros Hne Hr. unfold main. destruct paths as [|p paths]; [contradiction|].
  rewrite (@analyze_paths_readable files (negb no_django) (p :: paths) ([], 0%Z) Hr).
  cbn [fst snd]. rewrite Z.add_0_l. change ([] ++ ?x) with x.
  set (t := batch_total files (p :: paths) (negb no_django)).
  assert (Hverdict : forall shown c,
            exists out,
              (if (t >=? threshold)%Z
               then inr (mkRun (shown ++ [RiskScore c t (risk_label t) threshold;
                                          Blocked t threshold]) 1)
               else inr (mkRun (shown ++ [RiskScore c t (risk_label t) threshold;
                                          Passed t threshold]) 0))
              = inr (mkRun out (if (t <? threshold)%Z then 0%Z else 1%Z))
                :> result run).
  { intros shown c. rewrite Z.geb_leb.
    destruct (Z.ltb_spec t threshold); destruct (Z.leb_spec threshold t);
      try lia; eexists; reflexivity. }
  destruct fmt; [|eexists; reflexivity].
  destruct (batch_findings files (p :: paths) (negb no_django)) as [|f fs'].
  - destruct (label_color t) as (c & ->). apply Hverdict.
  - destruct (table_rows_succeed (f :: fs')) as (rows & ->).
    destruct (label_color t) as (c & ->). apply Hverdict.
Qed.

Lemma analyze_paths_inr_readable files d : forall paths st state,
  analyze_paths files paths d st = inr state -> readable files paths.
Proof.
  induction paths as [|p paths IH]; intros st state H q Hq; [contradiction|].
  cbn [analyze_paths] in H. unfold analyze_file in H at 1.
  destruct (files p) as [content|] eqn:Hp; [|discriminate].
  destruct Hq as [-> | Hq]; [congruence|].
  destruct (analyze_sql content p d); [|discriminate].
  now apply (IH _ _ H).
Qed.

Lemma main_inr_readable files paths threshold fmt no_django r :
  main files paths threshold fmt no_django = inr r -> readable files paths.
Proof.
  intros H. destruct paths as [|p paths]; [intros q []|].
  destruct (analyze_paths files (p :: paths) (negb no_django) ([], 0%Z))
    as [e'|state] eqn:Hstate.
  - unfold main in H. rewrite Hstate in H. discriminate.
  - now apply analyze_paths_inr_readable in Hstate.
Qed.


Lemma main_json files paths threshold no_django :
  paths <> [] -> readable files paths ->
  main files paths threshold json no_django =
  inr (mkRun [JsonReport (map json_of (batch_findings files paths (negb no_django)))
                         (batch_total files paths (negb no_django))
                         (batch_total files paths (negb no_django) <? threshold)%Z]
             (if (batch_total files paths (negb no_django) <? threshold)%Z
              then 0%Z else 1%Z)).
Proof.
  intros Hne Hr. unfold main. destruct paths as [|p paths]; [contradiction|].
  rewrite (@analyze_paths_readable files (negb no_django) (p :: paths) ([], 0%Z) Hr).
  cbn [fst snd]. now rewrite Z.add_0_l.
Qed.

Lemma main_table files paths threshold no_django :
  paths <> [] -> readable files paths ->
  exists shown c,
    main files paths threshold table no_django =
    inr (mkRun (shown ++
                [RiskScore c (batch_total files paths (negb no_django))
                           (risk_label (batch_total files paths (negb no_django)))
                           threshold;
                 if (batch_total files paths (negb no_django) <? threshold)%Z
                 then Passed (batch_total files paths (negb no_django)) threshold
                 else Blocked (batch_total files paths (negb no_django)) threshold])
               (if (batch_total files paths (negb no_django) <? threshold)%Z
                then 0%Z else 1%Z)) /\
    getitem COLORS (risk_label (batch_total files paths (negb no_django))) = inr c /\
    (shown = [] <-> batch_findings files paths (negb no_django) = []) /\
    (forall data t passed, ~ In (JsonReport data t passed) shown).
Proof.
  intros Hne Hr. unfold main. destruct paths as [|p paths]; [contradiction|].
  rewrite (@analyze_paths_readable files (negb no_django) (p :: paths) ([], 0%Z) Hr).
  cbn [fst snd]. rewrite Z.add_0_l. change ([] ++ ?x) with x.
  set (t := batch_total files (p :: paths) (negb no_django)).
  destruct (label_color t) as (c & Hc).
  assert (Hverdict : forall shown,
            (if (t >=? threshold)%Z
             then inr (mkRun (shown ++ [RiskScore c t (risk_label t) threshold;
                                        Blocked t threshold]) 1)
             else inr (mkRun (shown ++ [RiskScore c t (risk_label t) threshold;
                                        Passed t threshold]) 0))
            = inr (mkRun (shown ++ [RiskScore c t (risk_label t) threshold;
                                    if (t <? threshold)%Z then Passed t threshold
                                    else Blocked t threshold])
                         (if (t <? threshold)%Z then 0%Z else 1%Z))
              :> result run).
  { intros shown. rewrite Z.geb_leb.
    destruct (Z.ltb_spec t threshold); destruct (Z.leb_spec threshold t);
      try lia; reflexivity. }
  destruct (batch_findings files (p :: paths) (negb no_django)) as [|f fs'].
  - exists [], c. split; [rewrite Hc; apply Hverdict|]. split; [exact Hc|].
    split; [tauto | now intros ? ? ? []].
  - destruct (table_rows_succeed (f :: fs')) as (rows & ->).
    eexists. exists c. split; [rewrite Hc; apply Hverdict|]. split; [exact Hc|].
    split; [split; discriminate|].
    intros data t' passed [Hin | [Hin | Hin]]; try discriminate.
    apply in_map_iff in Hin. now destruct Hin as (? & ? & _).
Qed.

Lemma batch_findings_catalog files paths d f :
  In f (batch_findings files paths d) ->
  exists r, In r (active_rules d) /\ rule_id f = rule_name r /\ score f = rule_score r.
Proof.
  unfold batch_findings, file_findings. intros H. apply in_flat_map in H.
  destruct H as (p & _ & H). destruct (files p) as [content|]; [|contradiction].
  rewrite analyze_sql_spec in H. cbn [findings] in H.
  apply in_flat_map in H. destruct H as (r & Hr & H).
  unfold rule_findings in H. apply in_map_iff in H. destruct H as (m & <- & _).
  exists r. split; [exact Hr|]. now rewrite finding_of_rule_id, finding_of_score.
Qed.

Lemma batch_scores files paths d :
  Forall (fun f => (20 <= score f)%Z) (batch_findings files paths d).
Proof.
  apply Forall_forall. intros f Hf.
  destruct (batch_findings_catalog _ _ _ _ Hf) as (r & Hr & _ & ->).
  apply catalog_scores_at_least_20. now apply (active_rules_incl d).
Qed.

Lemma batch_total_bounds files paths d :
  (20 * Z.of_nat (List.length (batch_findings files paths d))
   <= batch_total files paths d)%Z.
Proof. apply sum_at_least, batch_scores. Qed.

(** X7: once the files are read, the exit code is 1 exactly when there are
    paths and the total of the batch reaches the threshold, and 0 otherwise,
    in both formats; the JSON field [passed] and the last table line say the
    same. As totals are not negative, a threshold of 0 or less blocks every
    run that has a path. *)
Theorem exit_code_follows_threshold files paths threshold fmt no_django r :
  main files paths threshold fmt no_django = inr r ->
  let total := batch_total files paths (negb no_django) in
  (exit_code r = 1 <-> paths <> [] /\ threshold <= total)%Z /\
  (exit_code r = 0 <-> paths = [] \/ total < threshold)%Z /\
  (forall data t passed,
     In (JsonReport data t passed) (output r) ->
     data = map json_of (batch_findings files paths (negb no_django)) /\
     t = total /\ (passed = true <-> exit_code r = 0%Z)) /\
  (fmt = table -> paths <> [] ->
     exists shown line,
       output r = shown ++ [line; if (exit_code r =? 0)%Z
                                  then Passed total threshold
                                  else Blocked total threshold]) /\
  (0 <= total)%Z /\
  (paths <> [] -> threshold <= 0 -> exit_code r = 1)%Z.
Proof.
  intros H total. pose proof (main_inr_readable _ _ _ _ _ H) as Hr.
  pose proof (batch_total_bounds files paths (negb no_django)) as Hb.
  fold total in Hb.
  assert (Hpos : (0 <= total)%Z) by lia.
  destruct paths as [|p paths].
  - cbn in H. injection H as <-. cbn [exit_code output].
    split; [split; [discriminate | now intros [[] _]]|].
    split; [split; [now left | reflexivity]|].
    split; [intros data t passed [Hin | []]; discriminate|].
    split; [now intros _ []|]. split; [exact Hpos | now intros []].
  - assert (Hne : p :: paths <> []) by discriminate.
    assert (Hcode : exit_code r = if (total <? threshold)%Z then 0%Z else 1%Z).
    { destruct (@main_readable files (p :: paths) threshold fmt no_django Hne Hr)
        as (out & Hm).
      rewrite Hm in H. now injection H as <-. }
    assert (Hone : (exit_code r = 1 <-> p :: paths <> [] /\ threshold <= total)%Z).
    { rewrite Hcode. destruct (Z.ltb_spec total threshold).
      - split; [discriminate | intros [_ ?]; lia].
      - split; [now split | reflexivity]. }
    assert (Hzero : (exit_code r = 0 <-> p :: paths = [] \/ total < threshold)%Z).
    { rewrite Hcode. destruct (Z.ltb_spec total threshold).
      - split; [now right | reflexivity].
      - split; [discriminate | intros [? | ?]; [discriminate | lia]]. }
    split; [exact Hone|]. split; [exact Hzero|].
    split; [|split; [|split; [exact Hpos | intros _ Hth; apply Hone; split; [exact Hne | lia]]]].
    + intros data t passed Hin. destruct fmt.
      * destruct (main_table threshold no_django Hne Hr) as (shown & c & Hm & _ & _ & Hnj).
        rewrite Hm in H. injection H as <-. cbn [output] in Hin.
        apply in_app_or in Hin. destruct Hin as [Hin | [Hin | [Hin | []]]].
        -- now apply Hnj in Hin.
        -- discriminate.
        -- fold total in Hin. destruct (total <? threshold)%Z; discriminate.
      * rewrite (main_json threshold no_django Hne Hr) in H. injection H as <-.
        cbn [output exit_code] in *. destruct Hin as [Hin | []].
        injection Hin as <- <- <-. split; [reflexivity|]. split; [reflexivity|].
        fold total. destruct (total <? threshold)%Z; split; congruence.
    + intros -> _.
      destruct (main_table threshold no_django Hne Hr) as (shown & c & Hm & _ & _ & _).
      rewrite Hm in H. injection H as <-. cbn [output exit_code]. fold total.
      do 2 eexists. f_equal. f_equal. f_equal.
      now destruct (total <? threshold)%Z.
Qed.

Lemma exit_code_follows_threshold_witness :
  exists r, main one_file_disk ["0002_drop.sql"%string] 30 table false = inr r /\
            exit_code r = 1%Z.
Proof.
  eexists. split; [vm_compute; reflexivity|].
  match goal with
  | |- exit_code ?R = _ =>
      apply (proj1 (@exit_code_follows_threshold one_file_disk
                      ["0002_drop.sql"%string] 30 table false R
                      ltac:(vm_compute; reflexivity)))
  end.
  split; [discriminate | now vm_compute].
Defined.

Lemma low_scores_are_three_rules files paths d f :
  In f (batch_findings files paths d) ->
  ((score f < 30)%Z <-> In (rule_id f) ["MS003"; "MS007"; "MS101"]%string).
Proof.
  intros Hf. destruct (batch_findings_catalog _ _ _ _ Hf) as (r & Hr & -> & ->).
  apply active_rules_incl in Hr. unfold RULES in Hr.
  repeat (destruct Hr as [<- | Hr];
          [cbn; split; [intros ?; try lia; tauto
                       | intros [? | [? | [? | []]]]; try discriminate; lia]|]).
  destruct Hr.
Qed.

(** X8: with the default threshold of 30 a run over some files passes
    exactly when the batch has no finding, or a single finding of MS003,
    MS007 or MS101; it is blocked exactly when the label of the total is
    HIGH or CRITICAL. *)
Theorem default_threshold_verdict files paths fmt no_django r :
  main files paths default_threshold fmt no_django = inr r -> paths <> [] ->
  let fs := batch_findings files paths (negb no_django) in
  let total := batch_total files paths (negb no_django) in
  (exit_code r = 0%Z <->
   fs = [] \/ exists f, fs = [f] /\ In (rule_id f) ["MS003"; "MS007"; "MS101"]%string) /\
  (exit_code r = 1%Z <->
   risk_label total = "HIGH"%string \/ risk_label total = "CRITICAL"%string).
Proof.
  intros H Hne fs total. pose proof (main_inr_readable _ _ _ _ _ H) as Hr.
  assert (Hcode : exit_code r = if (total <? 30)%Z then 0%Z else 1%Z).
  { destruct (@main_readable files paths default_threshold fmt no_django Hne Hr)
      as (out & Hm).
    rewrite Hm in H. now injection H as <-. }
  pose proof (batch_scores files paths (negb no_django)) as Hall. fold fs in Hall.
  pose proof (@low_scores_are_three_rules files paths (negb no_django)) as Hlow.
  fold fs in Hlow.
  assert (Htotal : total = sum (map score fs)) by reflexivity.
  split.
  - rewrite Hcode. destruct (Z.ltb_spec total 30) as [Hlt|Hge].
    + split; [intros _ | reflexivity].
      destruct fs as [|f [|g fs']]; [now left | right | exfalso].
      * exists f. split; [reflexivity|]. apply Hlow; [now left|].
        rewrite Htotal, sum_fold_right in Hlt. cbn in Hlt. lia.
      * pose proof (sum_at_least Hall) as Hs. rewrite <- Htotal in Hs.
        cbn [List.length] in Hs. rewrite !Nat2Z.inj_succ in Hs. lia.
    + split; [discriminate|]. intros Hfs. exfalso.
      destruct Hfs as [E | (f & E & Hin)].
      * rewrite E in Htotal. cbn in Htotal. lia.
      * apply Hlow in Hin; [|rewrite E; now left].
        rewrite E, sum_fold_right in Htotal. cbn in Htotal. lia.
  - rewrite Hcode.
    destruct (risk_label_cases total) as [[Ht ->] | [[Ht ->] | [[Ht ->] | [Ht ->]]]];
      destruct (Z.ltb_spec total 30); try lia;
      (split; [try discriminate; tauto | try reflexivity; intros [? | ?]; discriminate]).
Qed.

Lemma default_threshold_verdict_witness :
  exists r, main one_file_disk ["0002_drop.sql"%string] default_threshold json false
              = inr r /\
            (exit_code r = 1%Z <->
             risk_label (batch_total one_file_disk ["0002_drop.sql"%string] true)
               = "HIGH"%string \/
             risk_label (batch_total one_file_disk ["0002_drop.sql"%string] true)
               = "CRITICAL"%string).
Proof.
  eexists. split; [vm_compute; reflexivity|].
  match goal with
  | |- exit_code ?R = _ <-> _ =>
      apply (@default_threshold_verdict one_file_disk ["0002_drop.sql"%string]
               json false R ltac:(vm_compute; reflexivity) ltac:(discriminate))
  end.
Defined.

Lemma findings_without_framework text :
  flat_map (rule_findings text) (active_rules false) =
  filter (fun f => negb (is_framework f))
         (flat_map (rule_findings text) (active_rules true)).
Proof.
  unfold active_rules. rewrite !flat_map_filter, filter_flat_map.
  apply flat_map_ext. intros r. cbv beta. cbn [orb]. unfold is_framework.
  now rewrite (filter_rule_findings (fun n => negb (startswith n "MS1"))).
Qed.

Lemma sum_filter_le (q : Finding -> bool) fs :
  Forall (fun f => (20 <= score f)%Z) fs ->
  (sum (map score (filter q fs)) <= sum (map score fs))%Z.
Proof.
  rewrite !sum_fold_right. induction 1 as [|f fs Hf _ IH]; cbn [filter map fold_right].
  - lia.
  - destruct (q f); cbn [map fold_right]; lia.
Qed.

(** X9: switching the framework rules off removes exactly the findings of
    the MS1xx rules from a batch, so that the total does not grow and a run
    that passes with them also passes without them. *)
Theorem no_django_only_removes files paths :
  batch_findings files paths false =
    filter (fun f => negb (is_framework f)) (batch_findings files paths true) /\
  (batch_total files paths false <= batch_total files paths true)%Z /\
  (forall threshold fmt r_without r_with,
     main files paths threshold fmt true = inr r_without ->
     main files paths threshold fmt false = inr r_with ->
     (exit_code r_without <= exit_code r_with)%Z).
Proof.
  assert (Hf : batch_findings files paths false =
               filter (fun f => negb (is_framework f)) (batch_findings files paths true)).
  { unfold batch_findings. rewrite filter_flat_map. apply flat_map_ext. intros p.
    unfold file_findings. destruct (files p) as [content|]; [|reflexivity].
    rewrite !analyze_sql_spec. cbn [findings]. apply findings_without_framework. }
  assert (Ht : (batch_total files paths false <= batch_total files paths true)%Z).
  { unfold batch_total. rewrite Hf. apply sum_filter_le, batch_scores. }
  split; [exact Hf|]. split; [exact Ht|].
  intros threshold fmt r1 r2 H1 H2.
  pose proof (main_inr_readable _ _ _ _ _ H1) as Hr.
  destruct paths as [|p paths].
  - cbn in H1, H2. injection H1 as <-. injection H2 as <-. cbn. lia.
  - destruct (@main_readable files (p :: paths) threshold fmt true
                ltac:(discriminate) Hr) as (o1 & E1).
    destruct (@main_readable files (p :: paths) threshold fmt false
                ltac:(discriminate) Hr) as (o2 & E2).
    rewrite E1 in H1. rewrite E2 in H2. injection H1 as <-. injection H2 as <-.
    cbn [exit_code negb].
    destruct (Z.ltb_spec (batch_total files (p :: paths) false) threshold);
      destruct (Z.ltb_spec (batch_total files (p :: paths) true) threshold); lia.
Qed.

End CommandLine.

(** * Letter case *)

Section LetterCase.

Open Scope list_scope.










Lemma catalog_folded r re :
  In r RULES -> compile (rule_pattern r) true = Some re -> folded re = true.
Proof.
  intros Hr Hc. unfold RULES in Hr.
  repeat (destruct Hr as [<- | Hr]; [vm_compute in Hc; now injection Hc as <-|]).
  destruct Hr.
Qed.









End LetterCase.

(** * The other rules of the catalog *)



Section Shapes.

Open Scope list_scope.

Lemma compiled_ms002 : compiled "MS002" = Some ms002.
Proof. reflexivity. Qed.

Lemma compiled_ms004 : compiled "MS004" = Some ms004.
Proof. reflexivity. Qed.

Lemma compiled_ms005 : compiled "MS005" = Some ms005.
Proof. reflexivity. Qed.

Lemma compiled_ms006 : compiled "MS006" = Some ms006.
Proof. reflexivity. Qed.

Lemma compiled_ms007 : compiled "MS007" = Some ms007.
Proof. reflexivity. Qed.



















End Shapes.

(** * The catalog as data, and the table *)

Section Catalog.

Import Cli.

Open Scope list_scope.

(** X16: in RULES the ids are pairwise different, a rule of higher severity
    always has a higher score, MS101 is the only framework rule, and every
    pattern compiles to a case-insensitive expression that never matches
    the empty text. *)
Theorem catalog_is_well_formed :
  NoDup (map rule_name RULES) /\
  (forall r1 r2, In r1 RULES -> In r2 RULES ->
     (Severity_value (rule_severity r1) < Severity_value (rule_severity r2))%Z ->
     (rule_score r1 < rule_score r2)%Z) /\
  map rule_name (filter (fun r => startswith (rule_name r) "MS1") RULES)
    = ["MS101"%string] /\
  (forall r, In r RULES ->
     exists re, compile (rule_pattern r) true = Some re /\ folded re = true /\
       forall p s e, match_here re p s = Some e -> List.length e < List.length s).
Proof.
  split; [|split; [|split; [reflexivity|]]].
  - cbn. repeat constructor; cbn; intuition discriminate.
  - intros r1 r2 H1 H2. unfold RULES in H1, H2.
    repeat (destruct H1 as [<- | H1]);
      try (repeat (destruct H2 as [<- | H2]); cbn; try lia; contradiction);
      contradiction.
  - intros r Hr. destruct (compile (rule_pattern r) true) as [re|] eqn:Hc.
    + exists re. split; [reflexivity|]. split; [now apply (@catalog_folded r re)|].
      intros p s e. now apply (@catalog_matches_consume r re).
    + now apply catalog_compiles in Hr.
Qed.

Lemma sorted_starts_bound n : forall l lo,
  StronglySorted span_before l ->
  Forall (fun m => lo <= fst m < n) l -> List.length l <= n - lo.
Proof.
  induction l as [|a l IH]; intros lo Hs Hb; [cbn; lia|].
  apply StronglySorted_inv in Hs. destruct Hs as [Hs Ha].
  inversion Hb as [|? ? Hab Hbl]; subst.
  assert (Hb' : Forall (fun m => S lo <= fst m < n) l).
  { rewrite Forall_forall in *. intros m Hm. specialize (Ha m Hm). specialize (Hbl m Hm).
    unfold span_before in Ha. lia. }
  specialize (IH (S lo) Hs Hb'). cbn [List.length]. lia.
Qed.

(** X17: the occurrences of one rule come from left to right, none is
    empty, they do not overlap and lie within the text; so a rule has at
    most as many findings as the text has characters. *)
Theorem occurrences_are_disjoint r sql occurrences :
  In r RULES ->
  finditer (rule_pattern r) sql re_flags = Some occurrences ->
  StronglySorted span_before occurrences /\
  Forall (fun m => fst m < snd m <= List.length sql) occurrences /\
  List.length occurrences <= List.length sql.
Proof.
  intros Hr Hf. unfold finditer in Hf. cbn [IGNORECASE re_flags] in Hf.
  destruct (compile (rule_pattern r) true) as [re|] eqn:Hc; [|discriminate].
  injection Hf as <-.
  assert (Hb : Forall (fun m => fst m < snd m <= List.length sql)
                      (scan re 0 0 None sql)).
  { apply Forall_forall. intros [i e] Hin. apply scan_sound in Hin.
    destruct Hin as (pre & w & rest & -> & -> & -> & Hm).
    apply (@catalog_matches_consume r re _ _ _ Hr Hc) in Hm.
    rewrite !length_app in *. cbn [fst snd]. lia. }
  split; [apply scan_sorted|]. split; [exact Hb|].
  rewrite <- (Nat.sub_0_r (List.length sql)). apply sorted_starts_bound.
  - apply scan_sorted.
  - eapply Forall_impl; [|exact Hb]. cbv beta. intros m ?. lia.
Qed.

Lemma occurrences_are_disjoint_witness :
  In ("MS005"%string, CRITICAL, 50%Z,
      "DROP\s+TABLE\s+(?:IF\s+EXISTS\s+)?\w+"%string,
      "DROP TABLE causes irreversible data loss"%string,
      "Ensure all services stopped using table; consider renaming first"%string) RULES /\
  List.length [(0, 12)] <= List.length (list_ascii_of_string "DROP TABLE t").
Proof.
  assert (Hr : In ("MS005"%string, CRITICAL, 50%Z,
      "DROP\s+TABLE\s+(?:IF\s+EXISTS\s+)?\w+"%string,
      "DROP TABLE causes irreversible data loss"%string,
      "Ensure all services stopped using table; consider renaming first"%string) RULES)
    by (vm_compute; tauto).
  split; [exact Hr|].
  apply (@occurrences_are_disjoint _ (list_ascii_of_string "DROP TABLE t") [(0, 12)] Hr).
  vm_compute. reflexivity.
Defined.

Lemma table_rows_spec fs : table_rows fs = inr (map table_row_of fs).
Proof.
  induction fs as [|f fs IH]; [reflexivity|]. cbn [table_rows map].
  rewrite IH. unfold table_row_of. now destruct (severity f).
Qed.

Lemma batch_severities files paths d f :
  In f (batch_findings files paths d) -> severity f <> LOW.
Proof.
  unfold batch_findings, file_findings. intros H. apply in_flat_map in H.
  destruct H as (p & _ & H). destruct (files p) as [content|]; [|contradiction].
  rewrite analyze_sql_spec in H. cbn [findings] in H.
  apply in_flat_map in H. destruct H as (r & Hr & H).
  unfold rule_findings in H. apply in_map_iff in H. destruct H as (m & <- & _).
  apply active_rules_incl in Hr. unfold RULES in Hr.
  repeat (destruct Hr as [<- | Hr]; [discriminate|]). destruct Hr.
Qed.

(** X18: in the table format a run over some files prints, when there are
    findings, one table with a row per finding in batch order, coloured by
    severity and never green, and one remediation line per finding; then
    the score line with the label of the total, which is green exactly
    when there is no finding; then the verdict. Without findings it prints
    the score line and the verdict only. *)
Theorem table_report_layout files paths threshold no_django r :
  main files paths threshold table no_django = inr r -> paths <> [] ->
  let fs := batch_findings files paths (negb no_django) in
  let total := batch_total files paths (negb no_django) in
  exists colour,
    output r =
      match fs with
      | [] => []
      | _ :: _ =>
          TableReport (map table_row_of fs) :: RemediationsTitle ::
          map (fun f => Remediation (rule_id f) (remediation f)) fs
      end ++
      [RiskScore colour total (risk_label total) threshold;
       if (total <? threshold)%Z then Passed total threshold
       else Blocked total threshold] /\
    getitem COLORS (risk_label total) = inr colour /\
    (colour = "green"%string <-> fs = []) /\
    Forall (fun row => row_color row <> "green"%string) (map table_row_of fs).
Proof.
  intros H Hne fs total. pose proof (main_inr_readable _ _ _ _ _ H) as Hr.
  pose proof (batch_total_bounds files paths (negb no_django)) as Hb.
  fold fs total in Hb.
  unfold main in H. destruct paths as [|p paths]; [contradiction|].
  rewrite (@analyze_paths_readable files (negb no_django) (p :: paths) ([], 0%Z) Hr) in H.
  cbn [fst snd] in H. rewrite Z.add_0_l in H. change ([] ++ ?x) with x in H.
  fold fs total in H.
  assert (Hgreen : forall c, getitem COLORS (risk_label total) = inr c ->
            (c = "green"%string <-> fs = [])).
  { intros c Hc.
    destruct (risk_label_cases total) as [[Ht E] | [[Ht E] | [[Ht E] | [Ht E]]]];
      rewrite E in Hc; cbn in Hc; injection Hc as <-.
    - split; [discriminate|]. intros Efs. rewrite Efs in Hb.
      unfold total, batch_total in Ht. fold fs in Ht. rewrite Efs in Ht. cbn in Ht. lia.
    - split; [discriminate|]. intros Efs.
      unfold total, batch_total in Ht. fold fs in Ht. rewrite Efs in Ht. cbn in Ht. lia.
    - split; [discriminate|]. intros Efs.
      unfold total, batch_total in Ht. fold fs in Ht. rewrite Efs in Ht. cbn in Ht. lia.
    - split; [intros _|reflexivity]. destruct fs as [|f fs']; [reflexivity|].
      cbn [List.length] in Hb. rewrite Nat2Z.inj_succ in Hb. lia. }
  assert (Hrows : Forall (fun row => row_color row <> "green"%string)
                         (map table_row_of fs)).
  { apply Forall_forall. intros row Hrow. apply in_map_iff in Hrow.
    destruct Hrow as (f & <- & Hf). apply batch_severities in Hf.
    cbn. destruct (severity f); try discriminate. contradiction. }
  destruct (label_color total) as (c & Hc). exists c.
  split; [|split; [exact Hc|split; [now apply Hgreen | exact Hrows]]].
  rewrite Hc in H. rewrite Z.geb_leb in H.
  destruct fs as [|f fs'] eqn:Efs.
  - destruct (Z.ltb_spec total threshold); destruct (Z.leb_spec threshold total);
      try lia; now injection H as <-.
  - rewrite table_rows_spec in H.
    destruct (Z.ltb_spec total threshold); destruct (Z.leb_spec threshold total);
      try lia; now injection H as <-.
Qed.

Lemma table_report_layout_witness :
  exists r colour,
    main one_file_disk ["0002_drop.sql"%string] 30 table false = inr r /\
    getitem COLORS
      (risk_label (batch_total one_file_disk ["0002_drop.sql"%string] true))
      = inr colour /\
    (colour = "green"%string <->
     batch_findings one_file_disk ["0002_drop.sql"%string] true = []).
Proof.
  assert (Hm : exists r0,
            main one_file_disk ["0002_drop.sql"%string] 30 table false = inr r0)
    by (eexists; vm_compute; reflexivity).
  destruct Hm as (r0 & Hm).
  destruct (@table_report_layout one_file_disk ["0002_drop.sql"%string] 30 false r0
              Hm ltac:(discriminate)) as (colour & _ & Hc & Hg & _).
  exists r0, colour. split; [exact Hm|]. split; [exact Hc | exact Hg].
Defined.

End Catalog.

(** * MS003 as it is *)

Section CreateIndexShape.

Open Scope list_scope.







End CreateIndexShape.
